(** * Chat4U backend: conversation and presence engine

    A shallow embedding of the message service
    ([backend/src/services/message.service.js]), the message controller
    ([backend/src/controllers/message.controller.js]), the Socket.IO
    presence map ([backend/src/lib/socket.js]) and the Mongoose schemas
    they rely on, followed by the properties of the specification that
    concern them.

    Conventions of the embedding:
    - a MongoDB [ObjectId] and a Socket.IO socket id are strings;
    - a [Date] is its number of milliseconds since the epoch, an integer;
      [toISOString] followed by [new Date] is the identity on such values,
      so a cursor is carried as the timestamp it denotes;
    - a JavaScript string is a [string]; whitespace is ASCII whitespace;
    - the [messages] collection is the list of its documents in insertion
      order, the [users] collection a finite map keyed by [_id]. *)

From Stdlib Require Import ZArith Lia Ascii String List.
From stdpp Require Import gmap strings list sorting.

Local Open Scope string_scope.
Local Open Scope Z_scope.

(** ** JavaScript preliminaries *)

Module Js.

(** The values an optional string-valued field takes:
    [None] is [undefined]. *)
Definition truthy (v : option string) : bool :=
  match v with
  | Some s => negb (String.eqb s "")
  | None => false
  end.

(** [v || ""] *)
Definition or_empty (v : option string) : string :=
  match v with
  | Some s => s
  | None => ""
  end.

(** White space and line terminators of [String.prototype.trim],
    restricted to ASCII: TAB, LF, VT, FF, CR and SPACE. *)
Definition is_space (c : ascii) : bool :=
  let n := nat_of_ascii c in
  ((9 <=? n)%nat && (n <=? 13)%nat) || (n =? 32)%nat.

Fixpoint trimStart (s : string) : string :=
  match s with
  | String c s' => if is_space c then trimStart s' else s
  | EmptyString => EmptyString
  end.

Fixpoint trimEnd (s : string) : string :=
  match s with
  | String c s' =>
      let r := trimEnd s' in
      if is_space c && String.eqb r "" then "" else String c r
  | EmptyString => EmptyString
  end.

Definition trim (s : string) : string := trimEnd (trimStart s).

(** The string is empty or starts with a character [trim] keeps. *)
Definition no_leading_space (s : string) : Prop :=
  match s with
  | String c _ => is_space c = false
  | EmptyString => True
  end.

(** The values that reach [options.limit]: absent, a number (the
    documented type) or a string (what [req.query] yields). *)
Inductive value :=
| Undefined
| Number (z : Z)
| Str (s : string).

(** Value of a digit in the given radix, [None] when the character is
    not a digit of that radix. *)
Definition digit_val (radix : Z) (c : ascii) : option Z :=
  let n := Z.of_nat (nat_of_ascii c) in
  let v :=
    if (48 <=? n) && (n <=? 57) then Some (n - 48)
    else if (97 <=? n) && (n <=? 122) then Some (n - 87)
    else if (65 <=? n) && (n <=? 90) then Some (n - 55)
    else None in
  match v with
  | Some d => if d <? radix then Some d else None
  | None => None
  end.

(** Longest prefix of digits; [acc] is [None] until a digit is read. *)
Fixpoint parse_digits (radix : Z) (acc : option Z) (s : string) : option Z :=
  match s with
  | String c s' =>
      match digit_val radix c with
      | Some d =>
          parse_digits radix
            (Some (match acc with Some a => a * radix + d | None => d end)) s'
      | None => acc
      end
  | EmptyString => acc
  end.

(** [parseInt(s)] without a radix: leading white space, an optional
    sign, an optional [0x] prefix, then digits. [None] is [NaN]. *)
Definition parseInt_string (s : string) : option Z :=
  let s := trimStart s in
  let '(sign, s) :=
    match s with
    | String "-" s' => (-1, s')
    | String "+" s' => (1, s')
    | _ => (1, s)
    end in
  let '(radix, s) :=
    match s with
    | String "0" (String "x" s') => (16, s')
    | String "0" (String "X" s') => (16, s')
    | _ => (10, s)
    end in
  match parse_digits radix None s with
  | Some n => Some (sign * n)
  | None => None
  end.

(** [parseInt(v)]: the argument is first converted to a string;
    [undefined] gives ["undefined"], which has no digits, and an
    integral number gives its decimal numeral, which is read back. *)
Definition parseInt (v : value) : option Z :=
  match v with
  | Undefined => None
  | Number z => Some z
  | Str s => parseInt_string s
  end.

(** [n || d] for a number [n]: [NaN] and [0] are falsy. *)
Definition num_or (n : option Z) (d : Z) : Z :=
  match n with
  | Some z => if z =? 0 then d else z
  | None => d
  end.

End Js.

(** ** Presence map ([lib/socket.js]) *)

Module Socket.

Record socket := mkSocket { userId : string; id : string }.

(** The object [userSocketMap], from user id to socket id, and the
    [io.emit("getOnlineUsers", keys)] sent so far. User ids are
    [ObjectId] strings, none of which names a property of
    [Object.prototype], so the object is a finite map; the order of the
    keys is that of the finite map, not JavaScript's insertion order. *)
Record state := mkState {
  userSocketMap : gmap string string;
  broadcasts : list (list string);
}.

Definition init : state :=
  {| userSocketMap := ∅; broadcasts := [] |}.

Definition getReceiverSocketId (st : state) (userId : string)
  : option string :=
  userSocketMap st !! userId.

Definition keys (m : gmap string string) : list string :=
  (map_to_list m).*1.

(** [io.on("connection", socket => ...)] *)
Definition on_connection (sk : socket) (st : state) : state :=
  let m := <[userId sk := id sk]> (userSocketMap st) in
  {| userSocketMap := m; broadcasts := broadcasts st ++ [keys m] |}.

(** [socket.on("disconnect", () => ...)]: the handler closes over the
    [userId] of its socket. *)
Definition on_disconnect (sk : socket) (st : state) : state :=
  let m := delete (userId sk) (userSocketMap st) in
  {| userSocketMap := m; broadcasts := broadcasts st ++ [keys m] |}.

Inductive event :=
| Connection (sk : socket)
| Disconnect (sk : socket).

Definition step (st : state) (e : event) : state :=
  match e with
  | Connection sk => on_connection sk st
  | Disconnect sk => on_disconnect sk st
  end.

Definition run (es : list event) (st : state) : state :=
  foldl step st es.

End Socket.

(** ** Documents ([models/Message.js], [models/User.js]) *)

(** A message document. [updatedAt] and [__v] play no role in the
    service and are left out. *)
Record Message := mkMessage {
  msg_id : string;
  senderId : string;
  receiverId : string;
  text : string;
  image : string;
  createdAt : Z;
}.

(** A user document; [profilePic] may be missing in old documents. *)
Record User := mkUser {
  email : string;
  fullName : string;
  profilePic : option string;
}.

Record Db := mkDb {
  messages : list Message;
  users : gmap string User;
}.

Global Instance Message_eq_dec : EqDecision Message.
Proof. solve_decision. Defined.

(** [sort({ createdAt: -1 })]: the order on documents. The server
    leaves the order of documents with equal [createdAt] open; the model
    takes the one of the merge sort below. *)
Definition newer_first (m1 m2 : Message) : Prop :=
  createdAt m2 <= createdAt m1.

Global Instance newer_first_dec : RelDecision newer_first.
Proof. intros m1 m2. unfold newer_first. apply _. Defined.

Definition sort_desc (l : list Message) : list Message :=
  merge_sort newer_first l.

(** [cursor.limit(n)] of the MongoDB driver: [0] is no limit, a negative
    [n] asks for [|n|] documents in a single batch. *)
Definition mongo_limit {A} (n : Z) (l : list A) : list A :=
  if n =? 0 then l else take (Z.abs_nat n) l.

(** [config.pagination] *)
Module Config.
Definition defaultLimit : Z := 50.
Definition maxLimit : Z := 100.
End Config.

(** ** The message service ([services/message.service.js]) *)

Module MessageService.

(** The errors the service ends with: the two classes of
    [utils/ApiError.js] it throws, and the validation error of Mongoose
    that [Message.create] may raise. *)
Inductive ApiError :=
| BadRequestError (msg : string)
| NotFoundError (msg : string)
| SchemaValidationError (msg : string).

Record Content := mkContent {
  c_text : option string;
  c_image : option string;
}.

(** [Message.create(doc)]: the schema trims [text], then checks
    [maxlength: 2000]; [timestamps: true] sets [createdAt]. The store
    supplies the fresh [_id] and the clock [now]. The text is taken to
    be ASCII, one byte a character; [Http.Message_create] below measures
    and trims any text. *)
Definition Message_create (db : Db) (oid : string) (now : Z)
    (sender receiver txt img : string) : ApiError + Message * Db :=
  let txt := Js.trim txt in
  if (2000 <? Z.of_nat (String.length txt)) then
    inl (SchemaValidationError "text is longer than the maximum allowed length (2000)")
  else
    let m := {| msg_id := oid; senderId := sender; receiverId := receiver;
                text := txt; image := img; createdAt := now |} in
    inr (m, {| messages := messages db ++ [m]; users := users db |}).

(** [sendMessage(senderId, receiverId, content)]; the result is the
    thrown error or the created message, with the store afterwards.
    Both ids are taken in the one spelling the store has for them, that
    of [ObjectId.toString()]; [Http.sendMessage] below takes the
    receiver id as a request spells it. *)
Definition sendMessage (db : Db) (oid : string) (now : Z)
    (sender receiver : string) (content : Content)
    : (ApiError + Message) * Db :=
  let txt := c_text content in
  let img := c_image content in
  if negb (Js.truthy txt) && negb (Js.truthy img) then
    (inl (BadRequestError "Message must contain text or image"), db)
  else
    match users db !! receiver with
    | None => (inl (NotFoundError "Receiver not found"), db)
    | Some _ =>
        if String.eqb sender receiver then
          (inl (BadRequestError "Cannot send messages to yourself"), db)
        else
          match Message_create db oid now sender receiver
                  (if Js.truthy txt then Js.or_empty txt else "")
                  (if Js.truthy img then Js.or_empty img else "") with
          | inl e => (inl e, db)
          | inr (m, db') => (inr m, db')
          end
    end.

(** The [options] argument. [o_before] is [None] when [before] is
    falsy (absent or empty) and otherwise the instant [new Date(before)]
    denotes. *)
Record Options := mkOptions {
  o_limit : Js.value;
  o_before : option Z;
}.

Record Page := mkPage {
  p_messages : list Message;
  hasMore : bool;
  nextCursor : option Z;
}.

(** [parseInt(options.limit) || defaultLimit], capped at [maxLimit]. *)
Definition effective_limit (v : Js.value) : Z :=
  let limit := Js.num_or (Js.parseInt v) Config.defaultLimit in
  if Config.maxLimit <? limit then Config.maxLimit else limit.

(** The [$or] of the two directions of a conversation. *)
Definition between (u1 u2 : string) (m : Message) : bool :=
  (String.eqb (senderId m) u1 && String.eqb (receiverId m) u2)
  || (String.eqb (senderId m) u2 && String.eqb (receiverId m) u1).

(** The query document: the pair, and [createdAt: { $lt: before }] when
    [before] is truthy. *)
Definition query (u1 u2 : string) (before : option Z) (m : Message) : bool :=
  between u1 u2 m
  && match before with
     | Some c => createdAt m <? c
     | None => true
     end.

(** [Message.find(query).sort({ createdAt: -1 })] *)
Definition candidates (db : Db) (u1 u2 : string) (before : option Z)
  : list Message :=
  sort_desc (List.filter (query u1 u2 before) (messages db)).

Definition getMessagesBetweenUsers (db : Db) (userId1 userId2 : string)
    (options : Options) : Page :=
  let limit := effective_limit (o_limit options) in
  let before := o_before options in
  let found := mongo_limit (limit + 1) (candidates db userId1 userId2 before) in
  let hasMore := limit <? Z.of_nat (length found) in
  let msgs := if hasMore then removelast found else found in
  let nextCursor :=
    if hasMore && (0 <? Z.of_nat (length msgs))
    then option_map createdAt (last msgs)
    else None in
  {| p_messages := reverse msgs; hasMore := hasMore; nextCursor := nextCursor |}.

(** Stages of the aggregation pipeline of [getChatPartners]. *)

Record Grouped := mkGrouped {
  partnerId : string;
  lastMessage : Message;
}.

Record Partner := mkPartner {
  p_id : string;
  p_email : string;
  p_fullName : string;
  p_profilePic : string;
  p_lastMessage : Message;
}.

(** [$match] *)
Definition involves (u : string) (m : Message) : bool :=
  String.eqb (senderId m) u || String.eqb (receiverId m) u.

(** First [$project]: the other participant, and [$$ROOT]. *)
Definition project_partner (u : string) (m : Message) : Grouped :=
  {| partnerId := if String.eqb (senderId m) u then receiverId m else senderId m;
     lastMessage := m |}.

(** [$group] by [partnerId] with [$first]: one document per key,
    holding the first document of the key in input order; the groups
    are produced in the order their keys first appear. *)
Fixpoint group_first (l : list Grouped) : list Grouped :=
  match l with
  | [] => []
  | d :: l' =>
      d :: List.filter (fun d' => negb (String.eqb (partnerId d') (partnerId d)))
             (group_first l')
  end.

(** [$lookup] from [users] on [_id], then [$unwind]: one output per
    matching user, none when there is no match. *)
Definition lookup_unwind (us : gmap string User) (d : Grouped)
  : list (Grouped * User) :=
  match us !! partnerId d with
  | Some u => [(d, u)]
  | None => []
  end.

(** Final [$project]. *)
Definition project_final (du : Grouped * User) : Partner :=
  let '(d, u) := du in
  {| p_id := partnerId d;
     p_email := email u;
     p_fullName := fullName u;
     p_profilePic :=
       match profilePic u with
       | Some p => p
       | None => "https://avatar.iran.liara.run/public"
       end;
     p_lastMessage := lastMessage d |}.

(** [$sort: { "lastMessage.createdAt": -1 }] *)
Definition recent_first (p1 p2 : Partner) : Prop :=
  createdAt (p_lastMessage p2) <= createdAt (p_lastMessage p1).

Global Instance recent_first_dec : RelDecision recent_first.
Proof. intros p1 p2. unfold recent_first. apply _. Defined.

Definition getChatPartners (db : Db) (userId : string) : list Partner :=
  let matched := List.filter (involves userId) (messages db) in
  let sorted := sort_desc matched in
  let projected := List.map (project_partner userId) sorted in
  let grouped := group_first projected in
  let joined := List.flat_map (lookup_unwind (users db)) grouped in
  let final := List.map project_final joined in
  merge_sort recent_first final.

(** A client paging backwards: each call passes the previous page's
    [nextCursor] as [before] and stops when there is none. The limits
    of the successive calls are given by [limits]. *)
Fixpoint fetchPages (db : Db) (u1 u2 : string) (limits : list Js.value)
    (before : option Z) : list Page :=
  match limits with
  | [] => []
  | lim :: rest =>
      let p := getMessagesBetweenUsers db u1 u2
                 {| o_limit := lim; o_before := before |} in
      p :: match nextCursor p with
           | Some c => fetchPages db u1 u2 rest (Some c)
           | None => []
           end
  end.

End MessageService.


(** ** The message controller ([controllers/message.controller.js]) *)

Module MessageController.

Inductive LogEntry :=
| LogWarn (msg : string)
| LogError (msg : string).

Inductive Body :=
| MessageBody (m : Message)
| ErrorBody (message : string).

(** What the request ends with: [res.status(s).json(b)], or an error
    thrown to [asyncHandler]. *)
Inductive Response :=
| Json (status : Z) (body : Body)
| Thrown (e : MessageService.ApiError).

(** The collaborators of one request: the Cloudinary upload ([None] when
    it rejects), whether [io.to(id).emit] throws, and the [_id] and clock
    the store will assign. *)
Record Env := mkEnv {
  cloudinary_upload : string -> option string;
  emit_throws : string -> Message -> bool;
  next_id : string;
  clock : Z;
}.

Record World := mkWorld {
  w_db : Db;
  w_userSocketMap : gmap string string;
  w_pushed : list (string * Message);
  w_log : list LogEntry;
}.

(** [/^data:image\/(jpeg|jpg|png|gif|webp);base64,/.test(image)] *)
Definition base64Regex_test (s : string) : bool :=
  existsb (fun p => String.prefix p s)
    ["data:image/jpeg;base64,"; "data:image/jpg;base64,";
     "data:image/png;base64,"; "data:image/gif;base64,";
     "data:image/webp;base64,"].

Definition maxSizeInBytes : Z := 5 * 1024 * 1024.

(** [(image.length * 3) / 4 > maxSizeInBytes], cleared of the division. *)
Definition too_large (s : string) : bool :=
  4 * maxSizeInBytes <? Z.of_nat (String.length s) * 3.

(** The [try { ... emit ... } catch] block after the service call. *)
Definition push_newMessage (env : Env) (w : World) (receiver : string)
    (message : Message) : World :=
  match w_userSocketMap w !! receiver with
  | Some receiverSocketId =>
      if Js.truthy (Some receiverSocketId) then
        if emit_throws env receiverSocketId message then
          {| w_db := w_db w; w_userSocketMap := w_userSocketMap w;
             w_pushed := w_pushed w;
             w_log := w_log w ++ [LogWarn "Socket.IO emit error"] |}
        else
          {| w_db := w_db w; w_userSocketMap := w_userSocketMap w;
             w_pushed := w_pushed w ++ [(receiverSocketId, message)];
             w_log := w_log w |}
      else w
  | None => w
  end.

(** The part of the handler that follows the image upload. *)
Definition send_with_image (env : Env) (w : World) (sender receiver : string)
    (txt : option string) (imageUrl : string) : Response * World :=
  match MessageService.sendMessage (w_db w) (next_id env) (clock env)
          sender receiver
          {| MessageService.c_text :=
               Some (if Js.truthy txt then Js.or_empty txt else "");
             MessageService.c_image := Some imageUrl |} with
  | (inl e, _) => (Thrown e, w)
  | (inr message, db') =>
      let w1 := {| w_db := db'; w_userSocketMap := w_userSocketMap w;
                   w_pushed := w_pushed w; w_log := w_log w |} in
      (Json 201 (MessageBody message), push_newMessage env w1 receiver message)
  end.

(** The image part of the handler: the checks and the upload. The
    result is the early response, with what is logged, or the URL to
    store ([""] when the request has no image). *)
Definition upload_image (env : Env) (img : option string)
    : Response * list LogEntry + string :=
  if Js.truthy img then
    let image := Js.or_empty img in
    if negb (base64Regex_test image) then
      inl (Json 400 (ErrorBody "Invalid image format. Expected base64-encoded image."), [])
    else if too_large image then
      inl (Json 400 (ErrorBody "Image size exceeds 5MB limit."), [])
    else
      match cloudinary_upload env image with
      | Some secure_url => inr secure_url
      | None =>
          inl (Json 500 (ErrorBody "Failed to upload image."),
               [LogError "Cloudinary upload error"])
      end
  else inr "".

(** [sendMessage(req, res)] with [req.body = { text, image }],
    [req.params.id = receiver] and [req.user._id = sender]. *)
Definition sendMessage (env : Env) (w : World) (sender receiver : string)
    (txt img : option string) : Response * World :=
  match upload_image env img with
  | inl (response, logged) =>
      (response,
       {| w_db := w_db w; w_userSocketMap := w_userSocketMap w;
          w_pushed := w_pushed w; w_log := w_log w ++ logged |})
  | inr imageUrl => send_with_image env w sender receiver txt imageUrl
  end.

End MessageController.


(** ** Ids of the conversation route ([validateGetMessages]) *)

Module Route.

Definition is_hex_digit (c : ascii) : bool :=
  match Js.digit_val 16 c with
  | Some _ => true
  | None => false
  end.

(** [isMongoId()]: 24 hexadecimal digits. *)
Definition isMongoId (s : string) : bool :=
  (String.length s =? 24)%nat && forallb is_hex_digit (list_ascii_of_string s).

End Route.

(** ** A small store used in the examples *)

Module Fixture.

Definition uX : User := mkUser "x@example.org" "Xavier" None.
Definition uY : User := mkUser "y@example.org" "Yara" (Some "yara.png").
Definition uW : User := mkUser "w@example.org" "Wim" None.

Definition m1 : Message := mkMessage "m1" "X" "Y" "hello" "" 1000.
Definition m2 : Message := mkMessage "m2" "Y" "X" "hi" "" 2000.
Definition m3 : Message := mkMessage "m3" "X" "Y" "again" "" 3000.
Definition m4 : Message := mkMessage "m4" "X" "Z" "are you there" "" 4000.
Definition m5 : Message := mkMessage "m5" "W" "X" "ping" "" 2500.

(** [Z] has exchanged a message with [X] but has no user document. *)
Definition db0 : Db :=
  mkDb [m1; m2; m3; m4; m5] (<["X" := uX]> (<["Y" := uY]> (<["W" := uW]> ∅))).

Definition env0 : MessageController.Env :=
  MessageController.mkEnv (fun _ => Some "https://res.cloudinary.com/i.png")
    (fun _ _ => false) "m6" 5000.

(** An environment in which every emit throws. *)
Definition env_throwing : MessageController.Env :=
  MessageController.mkEnv (fun _ => Some "https://res.cloudinary.com/i.png")
    (fun _ _ => true) "m6" 5000.

Definition world0 : MessageController.World :=
  MessageController.mkWorld db0 (<["Y" := "sock-y"]> ∅) [] [].

(** The same two users under well-formed [ObjectId]s, for the route. *)
Definition idX : string := "64b7f0a1c2d3e4f5a6b7c8d1".
Definition idY : string := "64b7f0a1c2d3e4f5a6b7c8d2".

Definition world1 : MessageController.World :=
  MessageController.mkWorld
    (mkDb [] (<[idX := uX]> (<[idY := uY]> ∅))) (<[idY := "sock-y"]> ∅) [] [].

End Fixture.


(** ** The message service, continued: deletion and counting *)

Module MessageMaintenance.

(** [Message.findById(id)] *)
Definition findById (db : Db) (id : string) : option Message :=
  List.find (fun m => String.eqb (msg_id m) id) (messages db).

(** [message.save()]: the document of the collection with the [_id] of
    [m] is replaced by [m]. *)
Fixpoint save (m : Message) (l : list Message) : list Message :=
  match l with
  | [] => []
  | x :: l' =>
      if String.eqb (msg_id x) (msg_id m) then m :: l' else x :: save m l'
  end.

(** What the soft delete makes of a document. The schema trims the new
    text on assignment; [isDeleted] is not a path of the schema and is
    not stored. *)
Definition tombstone (message : Message) : Message :=
  {| msg_id := msg_id message;
     senderId := senderId message;
     receiverId := receiverId message;
     text := Js.trim "This message was deleted";
     image := "";
     createdAt := createdAt message |}.

(** [deleteMessage(messageId, userId)] *)
Definition deleteMessage (db : Db) (messageId userId : string)
    : (MessageService.ApiError + Message) * Db :=
  match findById db messageId with
  | None => (inl (MessageService.NotFoundError "Message not found"), db)
  | Some message =>
      if negb (String.eqb (senderId message) userId) then
        (inl (MessageService.BadRequestError
                "You can only delete your own messages"), db)
      else
        let message' := tombstone message in
        (inr message',
         {| messages := save message' (messages db); users := users db |})
  end.

(** [getMessageCount(userId1, userId2)]: [countDocuments] of the pair. *)
Definition getMessageCount (db : Db) (userId1 userId2 : string) : nat :=
  length (List.filter (MessageService.between userId1 userId2) (messages db)).

(** The soft delete seen as a map over the collection. *)
Definition blank (id : string) (m : Message) : Message :=
  if String.eqb (msg_id m) id then tombstone m else m.

End MessageMaintenance.

(** ** The user service ([services/user.service.js]) *)

Module UserService.

(** A user as the service returns it: the [_id] as a string and the
    [profilePic] with its fallback. *)
Record PublicUser := mkPublicUser {
  u_id : string;
  u_email : string;
  u_fullName : string;
  u_profilePic : string;
}.

(** [{ ...user, _id: user._id.toString(),
       profilePic: user.profilePic || fallback }] *)
Definition present (id : string) (u : User) : PublicUser :=
  {| u_id := id;
     u_email := email u;
     u_fullName := fullName u;
     u_profilePic :=
       if Js.truthy (profilePic u) then Js.or_empty (profilePic u)
       else "https://avatar.iran.liara.run/public" |}.

(** [getUserById(userId)] *)
Definition getUserById (db : Db) (userId : string)
    : MessageService.ApiError + PublicUser :=
  match users db !! userId with
  | None => inl (MessageService.NotFoundError "User not found")
  | Some user => inr (present userId user)
  end.

(** [userExists(userId)]: [!!user] *)
Definition userExists (db : Db) (userId : string) : bool :=
  match users db !! userId with
  | Some _ => true
  | None => false
  end.

End UserService.

(** ** Status codes of the errors ([utils/ApiError.js],
       [convertToApiError]) and the conversation route *)

Module App.
Import MessageController.

(** The [statusCode] of the error classes, and the 400 that
    [convertToApiError] gives a Mongoose validation error. *)
Definition statusCode (e : MessageService.ApiError) : Z :=
  match e with
  | MessageService.BadRequestError _ => 400
  | MessageService.NotFoundError _ => 404
  | MessageService.SchemaValidationError _ => 400
  end.

Definition error_message (e : MessageService.ApiError) : string :=
  match e with
  | MessageService.BadRequestError msg => msg
  | MessageService.NotFoundError msg => msg
  | MessageService.SchemaValidationError msg => msg
  end.

(** [getMessagesByUserId(req, res)]: only [result.messages] is sent. *)
Definition getMessagesByUserId (db : Db) (myId otherUserId : string)
    (limit : Js.value) (before : option Z) : list Message :=
  MessageService.p_messages
    (MessageService.getMessagesBetweenUsers db myId otherUserId
       {| MessageService.o_limit := limit; MessageService.o_before := before |}).


End App.

(** ** Request strings: the spelling of an [ObjectId] *)

(** An id reaches the send route as the text of [req.params.id]. The
    stored ids and [req.user._id] are [ObjectId]s, whose [toString()] is
    24 lower-case hexadecimal digits; a request may spell the same id
    with upper-case digits. *)
Module ObjectId.

Definition is_hex (c : ascii) : bool := Route.is_hex_digit c.

(** The lower-case form of an ASCII letter; other characters are kept. *)
Definition lower (c : ascii) : ascii :=
  let n := nat_of_ascii c in
  if ((65 <=? n) && (n <=? 90))%nat then ascii_of_nat (n + 32) else c.

Definition to_lower (s : string) : string :=
  string_of_list_ascii (List.map lower (list_ascii_of_string s)).

(** The cast Mongoose applies to a string of 24 characters, which is
    what [isMongoId] lets through: 24 hexadecimal digits, of either
    case, give the [ObjectId], here in its [toString()] spelling;
    anything else is a [CastError]. Strings of another length do not
    reach the cast through the routes and are given no id here. *)
Definition cast (s : string) : option string :=
  if (String.length s =? 24)%nat && forallb is_hex (list_ascii_of_string s)
  then Some (to_lower s)
  else None.

End ObjectId.

(** ** Request strings: text *)

(** A JavaScript string, as far as it is well-formed Unicode, is held
    as its UTF-8 bytes. [String.length] counts bytes; the functions
    below give what JavaScript computes on the UTF-16 form. *)
Module Utf8.

Local Open Scope nat_scope.

Definition bytes (l : list nat) : list ascii := List.map ascii_of_nat l.

(** The white space and line terminators of ECMAScript, which
    [String.prototype.trim] and the class [\s] of a regular expression
    share: U+0009 to U+000D, U+0020, U+00A0, U+1680, U+2000 to U+200A,
    U+2028, U+2029, U+202F, U+205F, U+3000 and U+FEFF. *)
Definition white_space : list (list ascii) :=
  List.map bytes
    [[9]; [10]; [11]; [12]; [13]; [32];
     [194; 160];
     [225; 154; 128];
     [226; 128; 128]; [226; 128; 129]; [226; 128; 130]; [226; 128; 131];
     [226; 128; 132]; [226; 128; 133]; [226; 128; 134]; [226; 128; 135];
     [226; 128; 136]; [226; 128; 137]; [226; 128; 138];
     [226; 128; 168]; [226; 128; 169]; [226; 128; 175];
     [226; 129; 159];
     [227; 128; 128];
     [239; 187; 191]].

Fixpoint starts_with (p l : list ascii) : bool :=
  match p, l with
  | [], _ => true
  | c :: p', d :: l' => Ascii.eqb c d && starts_with p' l'
  | _ :: _, [] => false
  end.

(** Remove one leading occurrence of one of the patterns, if any. *)
Fixpoint strip (pats : list (list ascii)) (l : list ascii)
    : option (list ascii) :=
  match pats with
  | [] => None
  | p :: ps => if starts_with p l then Some (drop (length p) l) else strip ps l
  end.

Fixpoint trimStart_fuel (pats : list (list ascii)) (n : nat) (l : list ascii)
    : list ascii :=
  match n with
  | 0 => l
  | S n' =>
      match strip pats l with
      | Some l' => trimStart_fuel pats n' l'
      | None => l
      end
  end.

Definition trimStart_with (pats : list (list ascii)) (l : list ascii)
    : list ascii :=
  trimStart_fuel pats (length l) l.

Definition trimEnd_with (pats : list (list ascii)) (l : list ascii)
    : list ascii :=
  rev (trimStart_with (List.map (@rev ascii) pats) (rev l)).

Definition trim_with (pats : list (list ascii)) (l : list ascii)
    : list ascii :=
  trimEnd_with pats (trimStart_with pats l).

(** [s.trim()] *)
Definition trim (s : string) : string :=
  string_of_list_ascii (trim_with white_space (list_ascii_of_string s)).


(** UTF-16 code units a byte stands for: one for the first byte of a
    character of the basic plane, two for the first byte of a character
    beyond it (a surrogate pair), none for a continuation byte. *)
Definition units (c : ascii) : nat :=
  let n := nat_of_ascii c in
  if n <? 128 then 1 else if n <? 192 then 0 else if n <? 240 then 1 else 2.

(** [s.length] *)
Definition utf16_length (s : string) : nat :=
  list_sum (List.map units (list_ascii_of_string s)).

End Utf8.

(** ** validator.js, as far as the send route uses it *)

Module Validator.

(** [isHexadecimal]: [/^(0x|0h)?[0-9A-F]+$/i] *)
Definition isHexadecimal (s : string) : bool :=
  let all_hex (l : list ascii) :=
    negb (Nat.eqb (length l) 0) && forallb ObjectId.is_hex l in
  let l := list_ascii_of_string s in
  all_hex l
  || match l with
     | c0 :: c1 :: rest =>
         Ascii.eqb c0 "0"
         && (Ascii.eqb c1 "x" || Ascii.eqb c1 "X"
             || Ascii.eqb c1 "h" || Ascii.eqb c1 "H")
         && all_hex rest
     | _ => false
     end.

(** [isMongoId]: [isHexadecimal(str) && str.length === 24] *)
Definition isMongoId (s : string) : bool :=
  isHexadecimal s && Nat.eqb (Utf8.utf16_length s) 24.

(** The number of variation selectors U+FE0E and U+FE0F in the bytes. *)
Fixpoint selectors (l : list ascii) : nat :=
  match l with
  | c0 :: l' =>
      (match l' with
       | c1 :: c2 :: _ =>
           if Ascii.eqb c0 (ascii_of_nat 239) && Ascii.eqb c1 (ascii_of_nat 184)
              && (Ascii.eqb c2 (ascii_of_nat 142) || Ascii.eqb c2 (ascii_of_nat 143))
           then 1 else 0
       | _ => 0
       end + selectors l')%nat
  | [] => 0%nat
  end.

(** The count [isLength] of validator 13 compares with its bounds:
    [str.length] less the surrogate pairs and the variation selectors.
    The route's theorems do not depend on it: they take the check as a
    component of the environment. *)
Definition counted_length (s : string) : nat :=
  let l := list_ascii_of_string s in
  (Utf8.utf16_length s
   - length (List.filter (fun c => (240 <=? nat_of_ascii c)%nat) l)
   - selectors l)%nat.

Definition isLength_max (max : nat) (s : string) : bool :=
  (counted_length s <=? max)%nat.

End Validator.

(** ** The send route on request strings
       ([routes/message.route.js], [validateSendMessage], the controller
       and the service behind it) *)

(** The send path as a request goes through it: the receiver id is the
    text of the URL, cast where Mongoose casts it and compared or looked
    up as text where the code does so; text is measured and trimmed as
    JavaScript does. [MessageService.sendMessage] is this service for a
    receiver id in its [toString()] spelling and a text on which the
    two trims and the two lengths agree, as they do on ASCII text
    ([Http_sendMessage_agrees]). *)
Module Http.

(** The collaborators of a request: those of the controller, and the
    check [isLength({ max: 2000 })] of validator.js. *)
Record Env := mkEnv {
  base : MessageController.Env;
  isLength_max_2000 : string -> bool;
}.

(** What is thrown on the way: an error of the service, or the
    [CastError] of Mongoose for a receiver id that is no [ObjectId]. *)
Inductive Failure :=
| ApiFailure (e : MessageService.ApiError)
| CastError (value : string).

Inductive Response :=
| Json (status : Z) (body : MessageController.Body)
| Thrown (f : Failure).

(** A chain [optional({ checkFalsy: true }).trim()]: a falsy field is
    skipped and left as it is, any other is replaced by its trimmed
    form before the checks of the chain. *)
Definition sanitize (v : option string) : option string :=
  if Js.truthy v then Some (Utf8.trim (Js.or_empty v)) else v.

(** [req.body.f && req.body.f.trim().length > 0] of the custom check. *)
Definition has_content (v : option string) : bool :=
  Js.truthy v && negb (String.eqb (Utf8.trim (Js.or_empty v)) "").

(** [validateSendMessage], for a body whose [text] and [image] are
    strings or absent: [None] is the 400 answer of
    [handleValidationErrors], otherwise the body as the chains leave it. *)
Definition validateSendMessage (env : Env) (id : string)
    (txt img : option string) : option (option string * option string) :=
  let txt' := sanitize txt in
  let img' := sanitize img in
  let id_ok := Validator.isMongoId id in
  let text_ok :=
    if Js.truthy txt then isLength_max_2000 env (Js.or_empty txt') else true in
  let image_ok :=
    if Js.truthy img
    then MessageController.base64Regex_test (Js.or_empty img')
    else true in
  let content_ok := has_content txt' || has_content img' in
  if id_ok && text_ok && image_ok && content_ok then Some (txt', img') else None.

(** [Message.create(doc)]: [receiver] is the id after the cast; the
    schema trims [text], then checks [maxlength: 2000] on its
    [length]. *)
Definition Message_create (db : Db) (oid : string) (now : Z)
    (sender receiver txt img : string)
    : MessageService.ApiError + Message * Db :=
  let txt := Utf8.trim txt in
  if (2000 <? Utf8.utf16_length txt)%nat then
    inl (MessageService.SchemaValidationError
           "text is longer than the maximum allowed length (2000)")
  else
    let m := {| msg_id := oid; senderId := sender; receiverId := receiver;
                text := txt; image := img; createdAt := now |} in
    inr (m, {| messages := messages db ++ [m]; users := users db |}).

(** [messageService.sendMessage(senderId, receiverId, content)] with
    [senderId = req.user._id], in its [toString()] spelling, and
    [receiverId = req.params.id], as the request spells it:
    [User.findById] and [Message.create] cast the receiver id, the test
    [senderId.toString() === receiverId.toString()] compares the text. *)
Definition sendMessage (db : Db) (oid : string) (now : Z)
    (sender receiver : string) (content : MessageService.Content)
    : (Failure + Message) * Db :=
  let txt := MessageService.c_text content in
  let img := MessageService.c_image content in
  if negb (Js.truthy txt) && negb (Js.truthy img) then
    (inl (ApiFailure (MessageService.BadRequestError
                        "Message must contain text or image")), db)
  else
    match ObjectId.cast receiver with
    | None => (inl (CastError receiver), db)
    | Some receiverOid =>
        match users db !! receiverOid with
        | None =>
            (inl (ApiFailure (MessageService.NotFoundError "Receiver not found")),
             db)
        | Some _ =>
            if String.eqb sender receiver then
              (inl (ApiFailure (MessageService.BadRequestError
                                  "Cannot send messages to yourself")), db)
            else
              match Message_create db oid now sender receiverOid
                      (if Js.truthy txt then Js.or_empty txt else "")
                      (if Js.truthy img then Js.or_empty img else "") with
              | inl e => (inl (ApiFailure e), db)
              | inr (m, db') => (inr m, db')
              end
        end
    end.

(** [(image.length * 3) / 4 > maxSizeInBytes], cleared of the division. *)
Definition too_large (s : string) : bool :=
  4 * MessageController.maxSizeInBytes <? Z.of_nat (Utf8.utf16_length s) * 3.

(** The image part of the handler, as in [MessageController.upload_image]
    with the length of the image in code units. *)
Definition upload_image (env : Env) (img : option string)
    : Response * list MessageController.LogEntry + string :=
  if Js.truthy img then
    let image := Js.or_empty img in
    if negb (MessageController.base64Regex_test image) then
      inl (Json 400 (MessageController.ErrorBody
                       "Invalid image format. Expected base64-encoded image."), [])
    else if too_large image then
      inl (Json 400 (MessageController.ErrorBody "Image size exceeds 5MB limit."), [])
    else
      match MessageController.cloudinary_upload (base env) image with
      | Some secure_url => inr secure_url
      | None =>
          inl (Json 500 (MessageController.ErrorBody "Failed to upload image."),
               [MessageController.LogError "Cloudinary upload error"])
      end
  else inr "".

(** The part of the handler that follows the image upload: the service,
    then the push to [userSocketMap[receiverId]], a lookup by the text
    of the request. *)
Definition send_with_image (env : Env) (w : MessageController.World)
    (sender receiver : string) (txt : option string) (imageUrl : string)
    : Response * MessageController.World :=
  match sendMessage (MessageController.w_db w)
          (MessageController.next_id (base env))
          (MessageController.clock (base env)) sender receiver
          {| MessageService.c_text :=
               Some (if Js.truthy txt then Js.or_empty txt else "");
             MessageService.c_image := Some imageUrl |} with
  | (inl f, _) => (Thrown f, w)
  | (inr message, db') =>
      let w1 :=
        {| MessageController.w_db := db';
           MessageController.w_userSocketMap := MessageController.w_userSocketMap w;
           MessageController.w_pushed := MessageController.w_pushed w;
           MessageController.w_log := MessageController.w_log w |} in
      (Json 201 (MessageController.MessageBody message),
       MessageController.push_newMessage (base env) w1 receiver message)
  end.

(** The controller [sendMessage(req, res)]. *)
Definition controller (env : Env) (w : MessageController.World)
    (sender receiver : string) (txt img : option string)
    : Response * MessageController.World :=
  match upload_image env img with
  | inl (response, logged) =>
      (response,
       {| MessageController.w_db := MessageController.w_db w;
          MessageController.w_userSocketMap := MessageController.w_userSocketMap w;
          MessageController.w_pushed := MessageController.w_pushed w;
          MessageController.w_log := MessageController.w_log w ++ logged |})
  | inr imageUrl => send_with_image env w sender receiver txt imageUrl
  end.

(** [router.post("/send/:id", validateSendMessage, sendMessage)] *)
Definition post_send (env : Env) (w : MessageController.World)
    (sender id : string) (txt img : option string)
    : Response * MessageController.World :=
  match validateSendMessage env id txt img with
  | None => (Json 400 (MessageController.ErrorBody "Validation failed"), w)
  | Some (txt', img') => controller env w sender id txt' img'
  end.

(** The status [convertToApiError] gives what was thrown: that of the
    error class, and 400 for a [CastError]. *)
Definition statusCode (f : Failure) : Z :=
  match f with
  | ApiFailure e => App.statusCode e
  | CastError _ => 400
  end.

Definition error_message (f : Failure) : string :=
  match f with
  | ApiFailure e => App.error_message e
  | CastError value => "Invalid _id: " ++ value
  end.

(** [errorHandler(err, req, res, next)]: the log line and the answer
    [{ success: false, message }] with the status of the error. *)
Definition errorHandler (f : Failure) (w : MessageController.World)
    : Response * MessageController.World :=
  let line :=
    if 500 <=? statusCode f then MessageController.LogError "Server Error"
    else MessageController.LogWarn "Client Error" in
  (Json (statusCode f) (MessageController.ErrorBody (error_message f)),
   {| MessageController.w_db := MessageController.w_db w;
      MessageController.w_userSocketMap := MessageController.w_userSocketMap w;
      MessageController.w_pushed := MessageController.w_pushed w;
      MessageController.w_log := MessageController.w_log w ++ [line] |}).

(** [POST /api/messages/send/:id] up to the answer: the route, and the
    error handler for what [asyncHandler] passes on. *)
Definition post_send_answered (env : Env) (w : MessageController.World)
    (sender id : string) (txt img : option string)
    : Response * MessageController.World :=
  match post_send env w sender id txt img with
  | (Thrown f, w') => errorHandler f w'
  | r => r
  end.

(** The status of an answer. *)
Definition status (r : Response) : Z :=
  match r with
  | Json s _ => s
  | Thrown f => statusCode f
  end.

End Http.

(** Two users under [ObjectId]s, [Y] connected, for the send route. *)
Module HttpFixture.

Definition env : Http.Env :=
  Http.mkEnv Fixture.env0 (Validator.isLength_max 2000).

(** The id of [Y] as a request may spell it. *)
Definition idY_upper : string := "64B7F0A1C2D3E4F5A6B7C8D2".
Definition idX_upper : string := "64B7F0A1C2D3E4F5A6B7C8D1".

End HttpFixture.

(** ** Notions used in the statements *)

Module Presence.

Definition socket_of (e : Socket.event) : Socket.socket :=
  match e with
  | Socket.Connection sk => sk
  | Socket.Disconnect sk => sk
  end.

(** The event is for user [U]. *)
Definition concerns (U : string) (e : Socket.event) : bool :=
  String.eqb (Socket.userId (socket_of e)) U.

(** The last event of [es] for [U], if any. *)
Definition last_event (U : string) (es : list Socket.event)
    : option Socket.event :=
  last (List.filter (concerns U) es).

End Presence.

(** The page as a function of the effective limit and of the sorted
    candidates: the body of [getMessagesBetweenUsers] after the query. *)
Definition page_of_candidates (limit : Z) (cands : list Message)
    : MessageService.Page :=
  let found := mongo_limit (limit + 1) cands in
  let hasMore := limit <? Z.of_nat (length found) in
  let msgs := if hasMore then removelast found else found in
  let nextCursor :=
    if hasMore && (0 <? Z.of_nat (length msgs))
    then option_map createdAt (last msgs)
    else None in
  {| MessageService.p_messages := reverse msgs;
     MessageService.hasMore := hasMore;
     MessageService.nextCursor := nextCursor |}.

(** A page with each of its messages changed by [f]. *)
Definition map_page (f : Message -> Message) (p : MessageService.Page)
    : MessageService.Page :=
  {| MessageService.p_messages := List.map f (MessageService.p_messages p);
     MessageService.hasMore := MessageService.hasMore p;
     MessageService.nextCursor := MessageService.nextCursor p |}.

(** A chat partner entry and a grouped document with their message
    blanked when it has the id. *)
Definition blank_partner (id : string) (e : MessageService.Partner)
    : MessageService.Partner :=
  {| MessageService.p_id := MessageService.p_id e;
     MessageService.p_email := MessageService.p_email e;
     MessageService.p_fullName := MessageService.p_fullName e;
     MessageService.p_profilePic := MessageService.p_profilePic e;
     MessageService.p_lastMessage :=
       MessageMaintenance.blank id (MessageService.p_lastMessage e) |}.

Definition blank_grouped (id : string) (d : MessageService.Grouped)
    : MessageService.Grouped :=
  {| MessageService.partnerId := MessageService.partnerId d;
     MessageService.lastMessage :=
       MessageMaintenance.blank id (MessageService.lastMessage d) |}.


(** The clock value [now] is later than every stored message. *)
Definition later_than_all (db : Db) (now : Z) : Prop :=
  Forall (fun m => createdAt m < now) (messages db).


(** * Properties *)

(** ** Presence map *)

Section Presence.
Import Socket.

Lemma lookup_on_connection (sk : socket) (st : state) :
  getReceiverSocketId (on_connection sk st) (userId sk) = Some (id sk).
Proof. unfold getReceiverSocketId, on_connection; simpl. apply lookup_insert_eq. Qed.

Lemma lookup_on_disconnect (sk : socket) (st : state) :
  getReceiverSocketId (on_disconnect sk st) (userId sk) = None.
Proof. unfold getReceiverSocketId, on_disconnect; simpl. apply lookup_delete_eq. Qed.

Lemma keys_NoDup (m : gmap string string) : NoDup (keys m).
Proof. unfold keys. apply NoDup_fst_map_to_list. Qed.

Lemma run_snoc (es : list event) (e : event) (st : state) :
  run (es ++ [e]) st = step (run es st) e.
Proof. unfold run. by rewrite foldl_app. Qed.

(** C1, evaluated on the code: the disconnect handler deletes the entry
    of its user whatever socket id is stored there. After a second
    connection of [U] has replaced the first, the late disconnect of the
    first socket leaves [U] without an entry although its second socket
    is still connected; the lookup is [undefined], not [h2]. *)
Theorem C1_stale_disconnect_deletes_newer_entry
    (st : state) (U h1 h2 : string) :
  let s1 := mkSocket U h1 in
  let s2 := mkSocket U h2 in
  getReceiverSocketId (run [Connection s1; Connection s2] st) U = Some h2
  /\ getReceiverSocketId
       (run [Connection s1; Connection s2; Disconnect s1] st) U = None.
Proof.
  simpl. split.
  - apply (lookup_on_connection (mkSocket U h2)).
  - apply (lookup_on_disconnect (mkSocket U h1)).
Qed.

(** C9: after any sequence of connections and disconnections the map
    holds at most one socket id per user and the list of online users
    has no repetition; a connection overwrites whatever entry its user
    had, so the lookup that follows returns the new socket id. *)
Theorem C9_one_handle_per_user_last_wins
    (es : list event) (U h : string) :
  let st := run es init in
  (forall h1 h2 : string,
      (U, h1) ∈ map_to_list (userSocketMap st) ->
      (U, h2) ∈ map_to_list (userSocketMap st) -> h1 = h2)
  /\ NoDup (keys (userSocketMap st))
  /\ getReceiverSocketId (run (es ++ [Connection (mkSocket U h)]) init) U = Some h
  /\ forall h' : string,
      (U, h') ∈ map_to_list
        (userSocketMap (run (es ++ [Connection (mkSocket U h)]) init)) ->
      h' = h.
Proof.
  intros st. repeat split.
  - intros h1 h2 H1 H2.
    apply elem_of_map_to_list in H1, H2. congruence.
  - apply keys_NoDup.
  - rewrite run_snoc. apply (lookup_on_connection (mkSocket U h)).
  - intros h' Hin. apply elem_of_map_to_list in Hin.
    rewrite run_snoc in Hin. simpl in Hin.
    rewrite lookup_insert_eq in Hin. congruence.
Qed.

End Presence.

(** ** Sorting and paging helpers *)

Global Instance newer_first_total : Total newer_first.
Proof. intros m1 m2. unfold newer_first. lia. Qed.

Global Instance newer_first_trans : Transitive newer_first.
Proof. intros m1 m2 m3. unfold newer_first. lia. Qed.

Lemma In_sort_desc (l : list Message) (m : Message) :
  In m (sort_desc l) <-> In m l.
Proof.
  unfold sort_desc. split; apply Permutation_in.
  - apply merge_sort_Permutation.
  - symmetry. apply merge_sort_Permutation.
Qed.

Lemma sort_desc_sorted (l : list Message) :
  StronglySorted newer_first (sort_desc l).
Proof. apply StronglySorted_merge_sort; apply _. Qed.

Lemma In_take {A} (k : nat) (l : list A) (x : A) : In x (take k l) -> In x l.
Proof.
  intros H. rewrite <- (take_drop k l). apply in_or_app. by left.
Qed.

Lemma take_sorted (k : nat) (l : list Message) :
  StronglySorted newer_first l -> StronglySorted newer_first (take k l).
Proof.
  intros H. rewrite <- (take_drop k l) in H.
  by apply StronglySorted_app_1_l in H.
Qed.

(** In a list sorted newest first the last element is the oldest. *)
Lemma last_is_oldest (l : list Message) (m m' : Message) :
  StronglySorted newer_first l -> last l = Some m -> In m' l ->
  createdAt m <= createdAt m'.
Proof.
  intros Hs Hl Hin. apply last_Some in Hl as [l' ->].
  apply in_app_or in Hin as [Hin | [<- | []]]; [|lia].
  apply list_elem_of_In in Hin.
  apply (StronglySorted_app_1_elem_of newer_first l' [m] m' m Hs Hin).
  apply list_elem_of_here.
Qed.

Lemma removelast_take {A} (l : list A) :
  removelast l = take (pred (length l)) l.
Proof. apply removelast_firstn_len. Qed.

(** Whatever the limit, what remains after [limit()] and [pop()] is a
    prefix of the sorted candidates. *)
Lemma trimmed_is_prefix {A} (b : bool) (n : Z) (l : list A) :
  exists k : nat,
    (if b then removelast (mongo_limit n l) else mongo_limit n l) = take k l.
Proof.
  unfold mongo_limit. destruct b, (n =? 0).
  - exists (pred (length l)). apply removelast_take.
  - rewrite removelast_take, take_take. eauto.
  - exists (length l). by rewrite take_ge.
  - eauto.
Qed.

Section Paging.
Import MessageService.

Lemma In_candidates db u1 u2 before m :
  In m (candidates db u1 u2 before) <->
  In m (messages db) /\ query u1 u2 before m = true.
Proof. unfold candidates. rewrite In_sort_desc. apply filter_In. Qed.

Lemma candidates_sorted db u1 u2 before :
  StronglySorted newer_first (candidates db u1 u2 before).
Proof. apply sort_desc_sorted. Qed.

Lemma query_before u1 u2 c m :
  query u1 u2 (Some c) m = true -> createdAt m < c.
Proof. unfold query. rewrite andb_true_iff. intros [_ H]. lia. Qed.

Lemma query_between u1 u2 before m :
  query u1 u2 before m = true -> between u1 u2 m = true.
Proof. unfold query. rewrite andb_true_iff. tauto. Qed.

(** The page, whatever the options: a prefix of the candidates in
    reverse, and a cursor that is the timestamp of the last element of
    that prefix. *)
Lemma page_shape db u1 u2 opts :
  let cands := candidates db u1 u2 (o_before opts) in
  let page := getMessagesBetweenUsers db u1 u2 opts in
  exists k : nat,
    p_messages page = reverse (take k cands)
    /\ forall c, nextCursor page = Some c ->
         exists m, last (take k cands) = Some m /\ createdAt m = c.
Proof.
  intros cands page. subst page. unfold getMessagesBetweenUsers.
  fold cands. cbn [p_messages nextCursor].
  set (limit := effective_limit (o_limit opts)).
  set (found := mongo_limit (limit + 1) cands).
  destruct (trimmed_is_prefix (limit <? Z.of_nat (length found)) (limit + 1) cands)
    as [k Hk].
  fold found in Hk. rewrite Hk. exists k. split; [done|].
  intros c Hc.
  destruct ((limit <? Z.of_nat (length found)) && (0 <? Z.of_nat (length (take k cands))));
    [|done].
  destruct (last (take k cands)) as [m|]; [|done].
  simpl in Hc. inversion Hc. eauto.
Qed.

Lemma page_messages_in db u1 u2 opts m :
  In m (p_messages (getMessagesBetweenUsers db u1 u2 opts)) ->
  In m (messages db) /\ query u1 u2 (o_before opts) m = true.
Proof.
  destruct (page_shape db u1 u2 opts) as (k & -> & _).
  intros H. rewrite <- list_elem_of_In, elem_of_reverse, list_elem_of_In in H.
  apply In_take in H. by apply In_candidates.
Qed.

Lemma page_cursor_is_oldest db u1 u2 opts c :
  nextCursor (getMessagesBetweenUsers db u1 u2 opts) = Some c ->
  (exists m, In m (p_messages (getMessagesBetweenUsers db u1 u2 opts))
             /\ createdAt m = c)
  /\ forall m, In m (p_messages (getMessagesBetweenUsers db u1 u2 opts)) ->
       c <= createdAt m.
Proof.
  destruct (page_shape db u1 u2 opts) as (k & Hp & Hc).
  intros H. destruct (Hc c H) as (m0 & Hlast & <-). rewrite Hp. split.
  - exists m0. split; [|done].
    rewrite <- list_elem_of_In, elem_of_reverse.
    by apply last_Some_elem_of.
  - intros m Hm. rewrite <- list_elem_of_In, elem_of_reverse, list_elem_of_In in Hm.
    apply (last_is_oldest (take k (candidates db u1 u2 (o_before opts)))); [|done..].
    apply take_sorted, candidates_sorted.
Qed.

End Paging.

(** ** Conversation pages *)

Section Pagination.
Import MessageService.

Lemma effective_limit_in_range (v : Js.value) (L : Z) :
  Js.parseInt v = Some L -> 1 <= L <= Config.maxLimit ->
  effective_limit v = L.
Proof.
  unfold effective_limit. intros -> [H1 H2]. simpl.
  destruct (Z.eqb_spec L 0); [lia|].
  destruct (Z.ltb_spec Config.maxLimit L); [lia|done].
Qed.

(** The page in closed form when the effective limit is positive. *)
Lemma page_positive_limit db u1 u2 lim c (L : Z) :
  effective_limit lim = L -> 1 <= L ->
  let cands := candidates db u1 u2 c in
  getMessagesBetweenUsers db u1 u2 {| o_limit := lim; o_before := c |} =
  {| p_messages := reverse (take (Z.to_nat L) cands);
     hasMore := L <? Z.of_nat (length cands);
     nextCursor :=
       if L <? Z.of_nat (length cands)
       then option_map createdAt (last (take (Z.to_nat L) cands))
       else None |}.
Proof.
  intros Heff HL cands. unfold getMessagesBetweenUsers.
  cbn [o_limit o_before]. rewrite Heff. fold cands.
  unfold mongo_limit.
  destruct (Z.eqb_spec (L + 1) 0); [lia|].
  replace (Z.abs_nat (L + 1)) with (S (Z.to_nat L)) by lia.
  rewrite length_take.
  destruct (Z.ltb_spec L (Z.of_nat (length cands))) as [Hlt | Hge].
  - destruct (Z.ltb_spec L (Z.of_nat (S (Z.to_nat L) `min` length cands))); [|lia].
    rewrite removelast_take, take_take, length_take.
    replace (pred (S (Z.to_nat L) `min` length cands) `min` S (Z.to_nat L))%nat
      with (Z.to_nat L) by lia.
    rewrite length_take.
    destruct (Z.ltb_spec 0 (Z.of_nat (Z.to_nat L `min` length cands))); [|lia].
    done.
  - destruct (Z.ltb_spec L (Z.of_nat (S (Z.to_nat L) `min` length cands))); [lia|].
    rewrite !take_ge by lia. done.
Qed.

(** C2: for a limit [L] of the configured range and an optional cursor
    [c], the candidates are the messages of the pair [{A, B}] (older than
    [c] when it is given) sorted newest first; [L + 1] of them are asked
    for; [hasMore] holds exactly when there are more than [L]; the page
    is the first [L] candidates in reverse, hence oldest first; and
    [nextCursor] is the timestamp of the first (oldest) message of the
    page when [hasMore] holds and [null] otherwise. *)
Theorem C2_page_of_conversation db (A B : string) (lim : Js.value) (L : Z)
    (c : option Z) :
  Js.parseInt lim = Some L -> 1 <= L <= Config.maxLimit ->
  let cands := candidates db A B c in
  let page := getMessagesBetweenUsers db A B {| o_limit := lim; o_before := c |} in
  (forall m, In m cands <->
     In m (messages db) /\ between A B m = true
     /\ forall t, c = Some t -> createdAt m < t)
  /\ Sorted newer_first cands
  /\ mongo_limit (effective_limit lim + 1) cands = take (Z.to_nat (L + 1)) cands
  /\ (hasMore page = true <-> L < Z.of_nat (length cands))
  /\ p_messages page = reverse (take (Z.to_nat L) cands)
  /\ Sorted (flip newer_first) (p_messages page)
  /\ (hasMore page = true ->
      exists m, head (p_messages page) = Some m
                /\ nextCursor page = Some (createdAt m)
                /\ forall m', In m' (p_messages page) -> createdAt m <= createdAt m')
  /\ (hasMore page = false -> nextCursor page = None).
Proof.
  intros Hparse HL cands page.
  pose proof (effective_limit_in_range lim L Hparse HL) as Heff.
  assert (Hpage := page_positive_limit db A B lim c L Heff (proj1 HL)).
  cbv zeta in Hpage. fold cands page in Hpage.
  assert (Hsorted : StronglySorted newer_first (take (Z.to_nat L) cands))
    by apply take_sorted, candidates_sorted.
  split; [|split; [|split; [|split; [|split; [|split; [|split]]]]]].
  - intros m. unfold cands. rewrite In_candidates. split.
    + intros [Hin Hq]. split; [done|]. split; [eapply query_between, Hq|].
      intros t ->. eapply query_before, Hq.
    + intros (Hin & Hb & Hc). split; [done|].
      unfold query. rewrite Hb. simpl. destruct c as [t|]; [|done].
      specialize (Hc t eq_refl). lia.
  - apply StronglySorted_Sorted, candidates_sorted.
  - rewrite Heff. unfold mongo_limit.
    destruct (Z.eqb_spec (L + 1) 0); [lia|]. f_equal. lia.
  - rewrite Hpage. cbn [hasMore]. lia.
  - by rewrite Hpage.
  - rewrite Hpage. cbn [p_messages].
    apply Sorted_reverse, StronglySorted_Sorted, Hsorted.
  - rewrite Hpage. cbn [hasMore p_messages nextCursor]. intros Hmore.
    rewrite Hmore, head_reverse.
    destruct (last (take (Z.to_nat L) cands)) as [m|] eqn:Hlast.
    + exists m. split; [done|]. split; [done|]. intros m' Hm'.
      rewrite <- list_elem_of_In, elem_of_reverse, list_elem_of_In in Hm'.
      by apply (last_is_oldest (take (Z.to_nat L) cands)).
    + apply last_None in Hlast. apply (f_equal length) in Hlast.
      rewrite length_take in Hlast. simpl in Hlast. lia.
  - rewrite Hpage. cbn [hasMore nextCursor]. by intros ->.
Qed.

(** The theorem at work: two of the three messages between [X] and [Y]. *)
Lemma C2_page_of_conversation_witness :
  Js.parseInt (Js.Str "2") = Some 2
  /\ 1 <= 2 <= Config.maxLimit
  /\ let page := getMessagesBetweenUsers Fixture.db0 "X" "Y"
                   {| o_limit := Js.Str "2"; o_before := None |} in
     hasMore page = true
     /\ p_messages page = [Fixture.m2; Fixture.m3]
     /\ nextCursor page = Some 2000.
Proof.
  assert (Hp : Js.parseInt (Js.Str "2") = Some 2) by reflexivity.
  assert (Hr : 1 <= 2 <= Config.maxLimit) by (unfold Config.maxLimit; lia).
  split; [exact Hp|]. split; [exact Hr|].
  destruct (C2_page_of_conversation Fixture.db0 "X" "Y" (Js.Str "2") 2 None Hp Hr)
    as (_ & _ & _ & Hmore & Hmsgs & _ & Hcur & _).
  cbv zeta. rewrite Hmsgs.
  assert (Hm : hasMore (getMessagesBetweenUsers Fixture.db0 "X" "Y"
                {| o_limit := Js.Str "2"; o_before := None |}) = true).
  { apply Hmore. vm_compute. reflexivity. }
  destruct (Hcur Hm) as (m & Hhead & Hnext & _).
  rewrite Hnext. rewrite Hmsgs in Hhead.
  split; [exact Hm|]. split; [vm_compute; reflexivity|].
  vm_compute in Hhead. inversion Hhead. reflexivity.
Defined.

End Pagination.

(** ** The effective limit *)

Section Limit.
Import MessageService.

Lemma effective_limit_le_max (v : Js.value) :
  effective_limit v <= Config.maxLimit.
Proof.
  unfold effective_limit.
  destruct (Z.ltb_spec Config.maxLimit (Js.num_or (Js.parseInt v) Config.defaultLimit));
    lia.
Qed.

(** A missing or unparseable limit, and [0], give the default. *)
Lemma effective_limit_default (v : Js.value) :
  Js.parseInt v = None \/ Js.parseInt v = Some 0 ->
  effective_limit v = Config.defaultLimit.
Proof. unfold effective_limit. by intros [-> | ->]. Qed.

(** A limit above the maximum gives the maximum. *)
Lemma effective_limit_above (v : Js.value) (n : Z) :
  Js.parseInt v = Some n -> Config.maxLimit < n ->
  effective_limit v = Config.maxLimit.
Proof.
  unfold effective_limit. intros -> Hn. simpl.
  destruct (Z.eqb_spec n 0); [unfold Config.maxLimit in Hn; lia|].
  destruct (Z.ltb_spec Config.maxLimit n); [done|lia].
Qed.

(** A negative limit is truthy and below the maximum: it passes both
    tests and is used as it is. *)
Lemma effective_limit_negative (v : Js.value) (n : Z) :
  Js.parseInt v = Some n -> n < 0 -> effective_limit v = n.
Proof.
  unfold effective_limit. intros -> Hn. simpl.
  destruct (Z.eqb_spec n 0); [lia|].
  destruct (Z.ltb_spec Config.maxLimit n); [unfold Config.maxLimit in *; lia|done].
Qed.

(** C3, evaluated on the code: [limit=1000] is capped at 100 and an
    unparseable or missing limit gives 50, but [limit=-5] stays [-5]. The
    query then asks for [limit(-4)], [hasMore] is true for any result
    and one message is popped: with three messages between [X] and [Y]
    the call returns two of them and a cursor, where [limit=50] returns
    the three and no cursor. *)
Theorem C3_negative_limit_is_not_clamped :
  effective_limit (Js.Str "1000") = 100
  /\ effective_limit (Js.Str "abc") = 50
  /\ effective_limit Js.Undefined = 50
  /\ effective_limit (Js.Str "-5") = -5
  /\ effective_limit (Js.Number (-5)) = -5
  /\ getMessagesBetweenUsers Fixture.db0 "X" "Y"
       {| o_limit := Js.Str "-5"; o_before := None |}
     = {| p_messages := [Fixture.m2; Fixture.m3]; hasMore := true;
          nextCursor := Some 2000 |}
  /\ getMessagesBetweenUsers Fixture.db0 "X" "Y"
       {| o_limit := Js.Str "50"; o_before := None |}
     = {| p_messages := [Fixture.m1; Fixture.m2; Fixture.m3]; hasMore := false;
          nextCursor := None |}.
Proof. repeat split; vm_compute; reflexivity. Qed.

End Limit.

(** ** Successive pages *)

Section Cursor.
Import MessageService.

Lemma unique_id_inj (l : list Message) (m m' : Message) :
  NoDup (List.map msg_id l) -> In m l -> In m' l ->
  msg_id m = msg_id m' -> m = m'.
Proof.
  induction l as [|x l IH]; simpl; [done|].
  intros Hnd [-> | Hm] [-> | Hm'] Hid; [done| | |].
  - apply NoDup_cons in Hnd as [Hx _]. exfalso. apply Hx.
    rewrite list_elem_of_In, Hid. by apply in_map.
  - apply NoDup_cons in Hnd as [Hx _]. exfalso. apply Hx.
    rewrite list_elem_of_In, <- Hid. by apply in_map.
  - apply NoDup_cons in Hnd as [_ Hnd]. by apply IH.
Qed.

(** Every page fetched with a cursor holds only messages strictly older
    than that cursor, and so does every page that follows it. *)
Lemma later_pages_older db u1 u2 (limits : list Js.value) (c : Z) p m :
  In p (fetchPages db u1 u2 limits (Some c)) -> In m (p_messages p) ->
  createdAt m < c.
Proof.
  revert c. induction limits as [|lim rest IH]; intros c; cbn [fetchPages In];
    [done|].
  set (opts := {| o_limit := lim; o_before := Some c |}).
  intros [<- | Hp] Hm.
  - apply (page_messages_in db u1 u2 opts) in Hm as [_ Hq].
    by apply query_before in Hq.
  - destruct (nextCursor (getMessagesBetweenUsers db u1 u2 opts)) as [c'|] eqn:Hc;
      [|destruct Hp].
    apply (page_cursor_is_oldest db u1 u2 opts) in Hc as [(m0 & Hm0 & <-) _].
    apply (page_messages_in db u1 u2 opts) in Hm0 as [_ Hq].
    apply query_before in Hq. specialize (IH _ Hp Hm). lia.
Qed.

(** Pages only hold documents of the store. *)
Lemma fetchPages_messages_in db u1 u2 (limits : list Js.value) before p m :
  In p (fetchPages db u1 u2 limits before) -> In m (p_messages p) ->
  In m (messages db).
Proof.
  revert before. induction limits as [|lim rest IH]; intros before;
    cbn [fetchPages In]; [done|].
  intros [<- | Hp] Hm.
  - apply page_messages_in in Hm. tauto.
  - destruct (nextCursor _); [|destruct Hp]. by eapply IH.
Qed.

(** C4: on a fixed store whose documents have distinct [_id]s, the pages
    obtained by passing each [nextCursor] as the next [before] share no
    message id; the cursor is an exclusive upper bound, so every later
    page lies strictly below the oldest message of an earlier one. *)
Theorem C4_pages_do_not_overlap db (A B : string) (limits : list Js.value)
    (before : option Z) (i j : nat) (pi pj : Page) (m m' : Message) :
  NoDup (List.map msg_id (messages db)) ->
  (i < j)%nat ->
  fetchPages db A B limits before !! i = Some pi ->
  fetchPages db A B limits before !! j = Some pj ->
  In m (p_messages pi) -> In m' (p_messages pj) ->
  msg_id m <> msg_id m'.
Proof.
  intros Hnd. revert before i j.
  induction limits as [|lim rest IH]; intros before i j Hij Hi Hj Hm Hm';
    cbn [fetchPages] in Hi, Hj; [done|].
  set (opts := {| o_limit := lim; o_before := before |}) in *.
  destruct j as [|j]; [lia|]. cbn [lookup list_lookup] in Hj.
  destruct (nextCursor (getMessagesBetweenUsers db A B opts)) as [c|] eqn:Hc;
    [|by destruct j].
  destruct i as [|i]; cbn [lookup list_lookup] in Hi.
  - inversion Hi; subst pi. intros Hid.
    apply (page_cursor_is_oldest db A B opts) in Hc as [_ Hold].
    specialize (Hold m Hm).
    assert (Hlt : createdAt m' < c).
    { eapply later_pages_older; [|exact Hm'].
      apply list_elem_of_In. eapply list_elem_of_lookup_2, Hj. }
    assert (m = m'); [|subst; lia].
    apply (unique_id_inj (messages db)); [done| | |done].
    + by apply (page_messages_in db A B opts).
    + eapply fetchPages_messages_in; [|exact Hm'].
      apply list_elem_of_In. eapply list_elem_of_lookup_2, Hj.
  - eapply (IH (Some c) i j); [lia|done..].
Qed.

Lemma C4_pages_do_not_overlap_witness :
  NoDup (List.map msg_id (messages Fixture.db0))
  /\ msg_id Fixture.m3 <> msg_id Fixture.m2.
Proof.
  assert (Hnd : NoDup (List.map msg_id (messages Fixture.db0))).
  { vm_compute. repeat constructor; rewrite ?list_elem_of_In; simpl; intuition congruence. }
  split; [exact Hnd|].
  apply (C4_pages_do_not_overlap Fixture.db0 "X" "Y"
           [Js.Str "1"; Js.Str "1"; Js.Str "1"] None 0 1
           {| p_messages := [Fixture.m3]; hasMore := true; nextCursor := Some 3000 |}
           {| p_messages := [Fixture.m2]; hasMore := true; nextCursor := Some 2000 |}).
  - exact Hnd.
  - lia.
  - vm_compute. reflexivity.
  - vm_compute. reflexivity.
  - simpl. by left.
  - simpl. by left.
Defined.

End Cursor.

(** ** Chat partners *)

Global Instance recent_first_total : Total MessageService.recent_first.
Proof. intros p1 p2. unfold MessageService.recent_first. lia. Qed.

Section Partners.
Import MessageService.

Lemma String_eqb_false (s1 s2 : string) : String.eqb s1 s2 = false <-> s1 <> s2.
Proof. apply String.eqb_neq. Qed.

(** A message involves [U] with counterpart [P] exactly when it is one
    of the two directions of the pair. *)
Lemma between_partner (U P : string) (m : Message) :
  between U P m = true <->
  involves U m = true /\ partnerId (project_partner U m) = P.
Proof.
  unfold between, involves, project_partner. cbn [partnerId].
  destruct (String.eqb_spec (senderId m) U) as [Hs | Hs];
    destruct (String.eqb_spec (receiverId m) U) as [Hr | Hr];
    destruct (String.eqb_spec (senderId m) P) as [Hsp | Hsp];
    destruct (String.eqb_spec (receiverId m) P) as [Hrp | Hrp];
    simpl; split; try tauto; try congruence; intuition congruence.
Qed.

Lemma group_first_In (l : list Grouped) (d : Grouped) :
  In d (group_first l) -> In d l.
Proof.
  induction l as [|x l IH]; simpl; [done|].
  intros [-> | H]; [by left|]. apply filter_In in H as [H _]. right. by apply IH.
Qed.

(** A group is headed by the first document of its key. *)
Lemma group_first_is_first (U : string) (s : list Message) (d : Grouped) :
  In d (group_first (List.map (project_partner U) s)) ->
  exists (s1 : list Message) (m0 : Message) (s2 : list Message),
    s = (s1 ++ m0 :: s2)%list /\ d = project_partner U m0
    /\ forall m, In m s1 -> partnerId (project_partner U m) <> partnerId d.
Proof.
  induction s as [|x s IH]; simpl; [done|].
  intros [<- | H].
  - exists [], x, s. by repeat split.
  - apply filter_In in H as [H Hne].
    apply negb_true_iff, String_eqb_false in Hne.
    destruct (IH H) as (s1 & m0 & s2 & -> & -> & Hfirst).
    exists (x :: s1), m0, s2. repeat split.
    intros m [<- | Hm]; [congruence|]. by apply Hfirst.
Qed.

(** Every key of the input has a group. *)
Lemma group_first_complete (l : list Grouped) (d : Grouped) :
  In d l ->
  exists d', In d' (group_first l) /\ partnerId d' = partnerId d.
Proof.
  induction l as [|x l IH]; simpl; [done|].
  intros [-> | H]; [by eauto|].
  destruct (IH H) as (d' & Hd' & Heq).
  destruct (String.eqb_spec (partnerId d') (partnerId x)) as [Hx | Hx].
  - exists x. split; [by left|congruence].
  - exists d'. split; [|done]. right. apply filter_In. split; [done|].
    by apply negb_true_iff, String_eqb_false.
Qed.

Lemma filter_NoDup_map {A B} (f : A -> B) (p : A -> bool) (l : list A) :
  NoDup (List.map f l) -> NoDup (List.map f (List.filter p l)).
Proof.
  induction l as [|x l IH]; simpl; [done|].
  rewrite NoDup_cons. intros [Hx Hnd]. destruct (p x); simpl; [|by apply IH].
  apply NoDup_cons. split; [|by apply IH].
  intros Hin. apply Hx. rewrite list_elem_of_In in *.
  apply in_map_iff in Hin as (y & <- & Hy). apply filter_In in Hy as [Hy _].
  by apply in_map.
Qed.

(** The groups have pairwise distinct keys. *)
Lemma group_first_NoDup (l : list Grouped) :
  NoDup (List.map partnerId (group_first l)).
Proof.
  induction l as [|x l IH]; simpl; [constructor|].
  apply NoDup_cons. split; [|by apply filter_NoDup_map].
  rewrite list_elem_of_In. intros Hin.
  apply in_map_iff in Hin as (y & Heq & Hy). apply filter_In in Hy as [_ Hy].
  apply negb_true_iff, String_eqb_false in Hy. congruence.
Qed.

Lemma In_joined (us : gmap string User) (g : list Grouped) d u :
  In (d, u) (List.flat_map (lookup_unwind us) g) <->
  In d g /\ us !! partnerId d = Some u.
Proof.
  rewrite in_flat_map. unfold lookup_unwind. split.
  - intros (d' & Hd' & Hin). destruct (us !! partnerId d') as [u'|] eqn:Hu; [|done].
    destruct Hin as [[= <- <-] | []]. done.
  - intros [Hd Hu]. exists d. rewrite Hu. split; [done|by left].
Qed.

Lemma joined_NoDup (us : gmap string User) (g : list Grouped) :
  NoDup (List.map partnerId g) ->
  NoDup (List.map p_id (List.map project_final (List.flat_map (lookup_unwind us) g))).
Proof.
  induction g as [|d g IH]; simpl; [constructor|].
  rewrite NoDup_cons. intros [Hd Hnd]. specialize (IH Hnd).
  unfold lookup_unwind at 1. destruct (us !! partnerId d) as [u|]; simpl; [|done].
  apply NoDup_cons. split; [|done].
  intros Hin. apply Hd. rewrite list_elem_of_In in *.
  apply in_map_iff in Hin as (e & He & Hin).
  apply in_map_iff in Hin as ([d' u'] & <- & Hin).
  apply In_joined in Hin as [Hin _]. simpl in He. rewrite <- He. by apply in_map.
Qed.

(** The entries of the result, traced back through the pipeline. *)
Lemma In_getChatPartners db (U : string) (e : Partner) :
  In e (getChatPartners db U) <->
  exists d u,
    In d (group_first (List.map (project_partner U)
            (sort_desc (List.filter (involves U) (messages db)))))
    /\ users db !! partnerId d = Some u
    /\ e = project_final (d, u).
Proof.
  unfold getChatPartners.
  set (g := group_first _).
  assert (Hperm := merge_sort_Permutation recent_first
            (List.map project_final (List.flat_map (lookup_unwind (users db)) g))).
  split.
  - intros He. apply (Permutation_in _ Hperm) in He.
    apply in_map_iff in He as ([d u] & <- & Hin). apply In_joined in Hin as [Hd Hu].
    by exists d, u.
  - intros (d & u & Hd & Hu & ->). apply (Permutation_in _ (Permutation_sym Hperm)).
    apply in_map. by apply In_joined.
Qed.

End Partners.

Section PartnerTheorems.
Import MessageService.

(** C5: the result has one entry per counterpart; the [lastMessage] of
    an entry is a message between the user and that counterpart and none
    of their messages is more recent; and the entries are in
    non-increasing order of [lastMessage.createdAt]. *)
Theorem C5_partners_unique_latest_sorted db (U : string) :
  let partners := getChatPartners db U in
  NoDup (List.map p_id partners)
  /\ (forall e, In e partners ->
        In (p_lastMessage e) (messages db)
        /\ between U (p_id e) (p_lastMessage e) = true
        /\ forall m, In m (messages db) -> between U (p_id e) m = true ->
             createdAt m <= createdAt (p_lastMessage e))
  /\ Sorted recent_first partners.
Proof.
  intros partners. split; [|split].
  - subst partners. unfold getChatPartners.
    rewrite (Permutation_map p_id (merge_sort_Permutation recent_first _)).
    apply joined_NoDup, group_first_NoDup.
  - intros e He. apply In_getChatPartners in He as (d & u & Hd & Hu & ->).
    cbn [project_final p_lastMessage p_id].
    pose proof (sort_desc_sorted (List.filter (involves U) (messages db))) as Hs.
    destruct (group_first_is_first U _ d Hd) as (s1 & m0 & s2 & Heq & -> & Hfirst).
    assert (Hm0 : In m0 (List.filter (involves U) (messages db))).
    { apply In_sort_desc. rewrite Heq. apply in_or_app. right. by left. }
    apply filter_In in Hm0 as [Hm0 Hinv].
    change (lastMessage (project_partner U m0)) with m0.
    split; [done|]. split.
    { by apply between_partner. }
    intros m Hm Hb. apply between_partner in Hb as [Hminv Hmp].
    assert (Hin : In m (sort_desc (List.filter (involves U) (messages db)))).
    { apply In_sort_desc. by apply filter_In. }
    rewrite Heq in Hin, Hs.
    apply in_app_or in Hin as [Hin | [<- | Hin]].
    + by apply Hfirst in Hin.
    + lia.
    + apply StronglySorted_app_1_r, StronglySorted_cons in Hs as [Hall _].
      rewrite Forall_forall in Hall. apply Hall. by apply list_elem_of_In.
  - apply Sorted_merge_sort. apply _.
Qed.

(** C10: a counterpart without a user document has no entry in the
    result; every entry carries the profile of an existing user; and the
    counterparts that do resolve keep their entry. The missing document
    raises no error: the result is a plain list. *)
Theorem C10_unresolved_partner_is_omitted db (U P : string) :
  users db !! P = None ->
  (forall e, In e (getChatPartners db U) -> p_id e <> P)
  /\ (forall e, In e (getChatPartners db U) ->
        exists u, users db !! p_id e = Some u
                  /\ p_email e = email u /\ p_fullName e = fullName u)
  /\ (forall Q m, In m (messages db) -> between U Q m = true ->
        is_Some (users db !! Q) ->
        exists e, In e (getChatPartners db U) /\ p_id e = Q).
Proof.
  intros HP. split; [|split].
  - intros e He. apply In_getChatPartners in He as (d & u & _ & Hu & ->).
    cbn [project_final p_id]. intros Heq. rewrite Heq in Hu. congruence.
  - intros e He. apply In_getChatPartners in He as (d & u & _ & Hu & ->).
    exists u. by cbn [project_final p_id p_email p_fullName].
  - intros Q m Hm Hb [u Hu]. apply between_partner in Hb as [Hinv Hp].
    destruct (group_first_complete
                (List.map (project_partner U)
                   (sort_desc (List.filter (involves U) (messages db))))
                (project_partner U m)) as (d & Hd & Hpd).
    { apply in_map, In_sort_desc. by apply filter_In. }
    exists (project_final (d, u)). split; [|cbn [project_final p_id]; congruence].
    apply In_getChatPartners. exists d, u. split; [done|]. split; [|done].
    congruence.
Qed.

Lemma C10_unresolved_partner_is_omitted_witness :
  users Fixture.db0 !! "Z" = None
  /\ In Fixture.m4 (messages Fixture.db0)
  /\ between "X" "Z" Fixture.m4 = true
  /\ List.map p_id (getChatPartners Fixture.db0 "X") = ["Y"; "W"]
  /\ forall e, In e (getChatPartners Fixture.db0 "X") -> p_id e <> "Z".
Proof.
  assert (HZ : users Fixture.db0 !! "Z" = None) by (vm_compute; reflexivity).
  split; [exact HZ|].
  split; [simpl; tauto|]. split; [reflexivity|].
  split; [vm_compute; reflexivity|].
  exact (proj1 (C10_unresolved_partner_is_omitted Fixture.db0 "X" "Z" HZ)).
Defined.

End PartnerTheorems.

(** ** Sending *)

Section Sending.
Import MessageService.


(** What a successful [sendMessage] has checked and written. *)
Lemma sendMessage_success db oid now (X Y : string) content m db' :
  sendMessage db oid now X Y content = (inr m, db') ->
  (Js.truthy (c_text content) = true \/ Js.truthy (c_image content) = true)
  /\ is_Some (users db !! Y)
  /\ X <> Y
  /\ m = {| msg_id := oid; senderId := X; receiverId := Y;
            text := Js.trim (if Js.truthy (c_text content)
                             then Js.or_empty (c_text content) else "");
            image := if Js.truthy (c_image content)
                     then Js.or_empty (c_image content) else "";
            createdAt := now |}
  /\ messages db' = (messages db ++ [m])%list
  /\ users db' = users db.
Proof.
  unfold sendMessage, Message_create.
  destruct (Js.truthy (c_text content)) eqn:Ht;
    destruct (Js.truthy (c_image content)) eqn:Hi; cbn [negb andb];
    try discriminate;
    (destruct (users db !! Y) as [u|]; [|discriminate]);
    (destruct (String.eqb_spec X Y); [discriminate|]);
    match goal with
    | |- context [if ?b then _ else _] => destruct b; [discriminate|]
    end;
    intros [= <- <-]; cbn [messages users]; repeat split; eauto.
Qed.

(** C7: with neither text nor image, [sendMessage] throws the bad
    request error of the content test, before anything is looked up or
    written: the store is unchanged and so is every page of the
    conversation. The controller, given such a body, ends with that
    error and leaves its whole state as it was. *)
Theorem C7_empty_content_is_rejected db oid now (X Y : string)
    (content : Content) :
  Js.truthy (c_text content) = false ->
  Js.truthy (c_image content) = false ->
  sendMessage db oid now X Y content
  = (inl (BadRequestError "Message must contain text or image"), db)
  /\ (forall opts,
        getMessagesBetweenUsers (snd (sendMessage db oid now X Y content)) X Y opts
        = getMessagesBetweenUsers db X Y opts)
  /\ (forall env w,
        MessageController.sendMessage env w X Y (c_text content) (c_image content)
        = (MessageController.Thrown
             (BadRequestError "Message must contain text or image"),
           w)).
Proof.
  intros Ht Hi.
  assert (Hsend : sendMessage db oid now X Y content
                  = (inl (BadRequestError "Message must contain text or image"), db)).
  { unfold sendMessage. by rewrite Ht, Hi. }
  split; [exact Hsend|]. split.
  - intros opts. by rewrite Hsend.
  - intros env w.
    unfold MessageController.sendMessage, MessageController.upload_image.
    rewrite Hi. unfold MessageController.send_with_image. rewrite Ht.
    reflexivity.
Qed.

Lemma C7_empty_content_is_rejected_witness :
  Js.truthy (Some "") = false
  /\ Js.truthy None = false
  /\ sendMessage Fixture.db0 "m6" 5000 "X" "Y" {| c_text := Some ""; c_image := None |}
     = (inl (BadRequestError "Message must contain text or image"), Fixture.db0).
Proof.
  split; [reflexivity|]. split; [reflexivity|].
  apply (C7_empty_content_is_rejected Fixture.db0 "m6" 5000 "X" "Y"
           {| c_text := Some ""; c_image := None |}); reflexivity.
Defined.

End Sending.

(** ** Sending, on request strings *)

Section HttpSending.
Import MessageController.


Lemma or_empty_truthy (v : option string) :
  (if Js.truthy v then Js.or_empty v else "") = Js.or_empty v.
Proof.
  destruct v as [s|]; [|done]. unfold Js.truthy. simpl.
  by destruct (String.eqb_spec s "").
Qed.

Lemma push_newMessage_db env w receiver message :
  w_db (push_newMessage env w receiver message) = w_db w.
Proof.
  unfold push_newMessage.
  destruct (w_userSocketMap w !! receiver) as [h|]; [|done].
  destruct (Js.truthy (Some h)); [|done].
  by destruct (emit_throws env h message).
Qed.


(** What a successful send has checked and written: the receiver is
    stored as cast, the sender is compared with the receiver as the
    request spells it. *)
Lemma Http_sendMessage_success db oid now (X Y : string) content m db' :
  Http.sendMessage db oid now X Y content = (inr m, db') ->
  (Js.truthy (MessageService.c_text content) = true
   \/ Js.truthy (MessageService.c_image content) = true)
  /\ X <> Y
  /\ exists R,
       ObjectId.cast Y = Some R
       /\ is_Some (users db !! R)
       /\ m = {| msg_id := oid; senderId := X; receiverId := R;
                 text := Utf8.trim (Js.or_empty (MessageService.c_text content));
                 image := Js.or_empty (MessageService.c_image content);
                 createdAt := now |}
       /\ messages db' = (messages db ++ [m])%list
       /\ users db' = users db.
Proof.
  unfold Http.sendMessage, Http.Message_create. rewrite !or_empty_truthy.
  intros H.
  assert (Hc : Js.truthy (MessageService.c_text content) = true
               \/ Js.truthy (MessageService.c_image content) = true).
  { destruct (Js.truthy (MessageService.c_text content)); [by left|].
    destruct (Js.truthy (MessageService.c_image content)); [by right|].
    discriminate. }
  split; [exact Hc|].
  destruct (negb _ && negb _); [discriminate|].
  destruct (ObjectId.cast Y) as [R|]; [|discriminate].
  destruct (users db !! R) as [u|] eqn:Hu; [|discriminate].
  destruct (String.eqb_spec X Y); [discriminate|].
  split; [done|]. exists R.
  destruct (_ <? _)%nat; [discriminate|].
  injection H as <- <-. cbn [messages users]. by eauto 10.
Qed.

(** For a receiver id in the spelling of [toString()] and a text on
    which the two trims and the two lengths agree, the send on request
    strings is [MessageService.sendMessage]. *)
Lemma Http_sendMessage_agrees db oid now (X Y : string)
    (content : MessageService.Content) :
  let t := Js.or_empty (MessageService.c_text content) in
  ObjectId.cast Y = Some Y ->
  Utf8.trim t = Js.trim t ->
  Utf8.utf16_length (Js.trim t) = String.length (Js.trim t) ->
  Http.sendMessage db oid now X Y content
  = match MessageService.sendMessage db oid now X Y content with
    | (inl e, db') => (inl (Http.ApiFailure e), db')
    | (inr m, db') => (inr m, db')
    end.
Proof.
  intros t HY Htrim Hlen.
  unfold Http.sendMessage, MessageService.sendMessage,
    Http.Message_create, MessageService.Message_create.
  rewrite !or_empty_truthy. fold t. rewrite HY, Htrim, Hlen.
  destruct (negb _ && negb _); [done|].
  destruct (users db !! Y); [|done].
  destruct (String.eqb X Y); [done|].
  destruct (Nat.ltb_spec 2000 (String.length (Js.trim t)));
    destruct (Z.ltb_spec 2000 (Z.of_nat (String.length (Js.trim t))));
    try lia; done.
Qed.

(** The request of the examples, on both. *)
Example sendMessage_agrees_on_fixture :
  let content := {| MessageService.c_text := Some "  hi ";
                    MessageService.c_image := None |} in
  Http.sendMessage (w_db Fixture.world1) "m6" 5000 Fixture.idX Fixture.idY content
  = (inr {| msg_id := "m6"; senderId := Fixture.idX; receiverId := Fixture.idY;
            text := "hi"; image := ""; createdAt := 5000 |},
     snd (MessageService.sendMessage (w_db Fixture.world1) "m6" 5000
            Fixture.idX Fixture.idY content)).
Proof.
  intros content.
  rewrite (Http_sendMessage_agrees (w_db Fixture.world1) "m6" 5000
             Fixture.idX Fixture.idY content);
    vm_compute; reflexivity.
Qed.

(** The handler on a send that succeeds: the answer is 201 with the
    stored message; the push goes by the entry of [userSocketMap] under
    the receiver id as the request spells it. *)
Lemma Http_controller_success (env : Http.Env) (w : World) (X id : string)
    (txt img : option string) (imageUrl : string) (message : Message) (db' : Db) :
  Http.upload_image env img = inr imageUrl ->
  Http.sendMessage (w_db w) (next_id (Http.base env)) (clock (Http.base env)) X id
    {| MessageService.c_text := Some (if Js.truthy txt then Js.or_empty txt else "");
       MessageService.c_image := Some imageUrl |}
  = (inr message, db') ->
  let r := Http.controller env w X id txt img in
  fst r = Http.Json 201 (MessageBody message)
  /\ w_db (snd r) = db'
  /\ w_userSocketMap (snd r) = w_userSocketMap w
  /\ match w_userSocketMap w !! id with
     | None => w_pushed (snd r) = w_pushed w /\ w_log (snd r) = w_log w
     | Some h =>
         h <> "" ->
         if emit_throws (Http.base env) h message
         then w_pushed (snd r) = w_pushed w
              /\ w_log (snd r) = (w_log w ++ [LogWarn "Socket.IO emit error"])%list
         else w_pushed (snd r) = (w_pushed w ++ [(h, message)])%list
              /\ w_log (snd r) = w_log w
     end.
Proof.
  intros Hup Hsend r. subst r.
  unfold Http.controller. rewrite Hup. unfold Http.send_with_image. rewrite Hsend.
  cbn [fst snd]. unfold push_newMessage. cbn [w_userSocketMap w_db].
  destruct (w_userSocketMap w !! id) as [h|] eqn:Hh.
  - unfold Js.truthy. destruct (String.eqb_spec h "") as [-> | Hne]; cbn [negb].
    + by repeat split.
    + destruct (emit_throws (Http.base env) h message); by repeat split.
  - by repeat split.
Qed.

End HttpSending.

(** ** Realtime push *)

Section Push.
Import MessageController.

(** C8 fails in the code for a receiver addressed in another spelling of
    its id. A request whose id [id] casts to the [ObjectId] [Y], while
    [userSocketMap] holds the connection [h] of [Y] under [Y] and has no
    entry under [id] (upper-case hexadecimal digits in the URL): the
    send succeeds, the message is stored with receiver [Y] and answered
    with status 201, and nothing is pushed to [h] nor logged. *)
Theorem C8_receiver_in_other_spelling_gets_no_push (env : Http.Env) (w : World)
    (X id Y h : string) (txt img : option string) (imageUrl : string)
    (message : Message) (db' : Db) :
  ObjectId.cast id = Some Y ->
  w_userSocketMap w !! Y = Some h ->
  w_userSocketMap w !! id = None ->
  Http.upload_image env img = inr imageUrl ->
  Http.sendMessage (w_db w) (next_id (Http.base env)) (clock (Http.base env)) X id
    {| MessageService.c_text := Some (if Js.truthy txt then Js.or_empty txt else "");
       MessageService.c_image := Some imageUrl |}
  = (inr message, db') ->
  let r := Http.controller env w X id txt img in
  fst r = Http.Json 201 (MessageBody message)
  /\ receiverId message = Y
  /\ w_db (snd r) = db'
  /\ In message (messages db')
  /\ w_userSocketMap (snd r) !! Y = Some h
  /\ w_pushed (snd r) = w_pushed w
  /\ w_log (snd r) = w_log w.
Proof.
  intros Hcast HY Hid Hup Hsend r.
  destruct (Http_controller_success env w X id txt img imageUrl message db' Hup Hsend)
    as (Hresp & Hdb & Hmap & Hpush).
  fold r in Hresp, Hdb, Hmap, Hpush. rewrite Hid in Hpush.
  apply Http_sendMessage_success in Hsend
    as (_ & _ & R & HR & _ & Hm & Hmsgs & _).
  rewrite Hcast in HR. injection HR as <-.
  split; [exact Hresp|]. split; [by subst message|]. split; [exact Hdb|].
  split; [rewrite Hmsgs; apply in_or_app; right; by left|].
  split; [by rewrite Hmap|]. exact Hpush.
Qed.

(** [Y] is connected with socket [sock-y]; the request spells its id in
    upper case. *)
Lemma C8_receiver_in_other_spelling_gets_no_push_witness :
  let m := {| msg_id := "m6"; senderId := Fixture.idX; receiverId := Fixture.idY;
              text := "hi"; image := ""; createdAt := 5000 |} in
  let r := Http.controller HttpFixture.env Fixture.world1 Fixture.idX
             HttpFixture.idY_upper (Some "hi") None in
  ObjectId.cast HttpFixture.idY_upper = Some Fixture.idY
  /\ w_userSocketMap Fixture.world1 !! Fixture.idY = Some "sock-y"
  /\ fst r = Http.Json 201 (MessageBody m)
  /\ w_pushed (snd r) = [].
Proof.
  intros m r.
  assert (Hcast : ObjectId.cast HttpFixture.idY_upper = Some Fixture.idY)
    by (vm_compute; reflexivity).
  assert (HY : w_userSocketMap Fixture.world1 !! Fixture.idY = Some "sock-y")
    by (vm_compute; reflexivity).
  split; [exact Hcast|]. split; [exact HY|].
  destruct (C8_receiver_in_other_spelling_gets_no_push HttpFixture.env
              Fixture.world1 Fixture.idX HttpFixture.idY_upper Fixture.idY "sock-y"
              (Some "hi") None "" m
              {| messages := [m]; users := users (w_db Fixture.world1) |}
              Hcast HY)
    as (Hresp & _ & _ & _ & _ & Hpush & _).
  - vm_compute. reflexivity.
  - vm_compute. reflexivity.
  - vm_compute. reflexivity.
  - split; [exact Hresp|exact Hpush].
Defined.

(** The same request with the id in the spelling of the map: the message
    is pushed to [sock-y]. *)
Example push_to_receiver_in_stored_spelling :
  let m := {| msg_id := "m6"; senderId := Fixture.idX; receiverId := Fixture.idY;
              text := "hi"; image := ""; createdAt := 5000 |} in
  let r := Http.controller HttpFixture.env Fixture.world1 Fixture.idX
             Fixture.idY (Some "hi") None in
  fst r = Http.Json 201 (MessageBody m)
  /\ w_pushed (snd r) = [("sock-y", m)] /\ w_log (snd r) = [].
Proof. repeat split; vm_compute; reflexivity. Qed.

(** [W] is not connected: the message is stored and nothing is pushed. *)
Example push_offline_receiver :
  let r := sendMessage Fixture.env0 Fixture.world0 "X" "W" (Some "hi") None in
  fst r = Json 201 (MessageBody
            {| msg_id := "m6"; senderId := "X"; receiverId := "W";
               text := "hi"; image := ""; createdAt := 5000 |})
  /\ w_pushed (snd r) = [] /\ w_log (snd r) = []
  /\ length (messages (w_db (snd r))) = 6%nat.
Proof. repeat split; vm_compute; reflexivity. Qed.

(** The emit to [Y] throws: same answer, a warning in the log. *)
Example push_throwing_emit :
  let r := sendMessage Fixture.env_throwing Fixture.world0 "X" "Y" (Some "hi") None in
  fst r = Json 201 (MessageBody
            {| msg_id := "m6"; senderId := "X"; receiverId := "Y";
               text := "hi"; image := ""; createdAt := 5000 |})
  /\ w_pushed (snd r) = []
  /\ w_log (snd r) = [LogWarn "Socket.IO emit error"]
  /\ length (messages (w_db (snd r))) = 6%nat.
Proof. repeat split; vm_compute; reflexivity. Qed.

End Push.

(** ** The content invariant *)

Section Trim.











End Trim.

Section Content.
Import MessageController.




(** The route answers 400 to a text of spaces and stores nothing; so it
    does to a text of no-break spaces (U+00A0). *)
Example route_rejects_whitespace_only_text :
  Http.post_send HttpFixture.env Fixture.world1 Fixture.idX Fixture.idY
    (Some "   ") (Some "")
  = (Http.Json 400 (ErrorBody "Validation failed"), Fixture.world1)
  /\ Http.post_send HttpFixture.env Fixture.world1 Fixture.idX Fixture.idY
       (Some (string_of_list_ascii (Utf8.bytes [194; 160; 194; 160]%nat))) None
     = (Http.Json 400 (ErrorBody "Validation failed"), Fixture.world1).
Proof. split; vm_compute; reflexivity. Qed.

(** The route trims the text it passes on. *)
Example route_stores_trimmed_text :
  let r := Http.post_send HttpFixture.env Fixture.world1 Fixture.idX Fixture.idY
             (Some "  hi ") None in
  fst r = Http.Json 201 (MessageBody
            {| msg_id := "m6"; senderId := Fixture.idX; receiverId := Fixture.idY;
               text := "hi"; image := ""; createdAt := 5000 |})
  /\ length (messages (w_db (snd r))) = 1%nat.
Proof. split; vm_compute; reflexivity. Qed.

(** The test against sending to oneself compares the id as the request
    spells it: the caller's own id is refused in the spelling of
    [toString()], and accepted in upper case, the stored message then
    having its sender as receiver. *)
Example self_send_by_spelling :
  let own := Http.post_send_answered HttpFixture.env Fixture.world1 Fixture.idX
               Fixture.idX (Some "note") None in
  let upper := Http.post_send HttpFixture.env Fixture.world1 Fixture.idX
                 HttpFixture.idX_upper (Some "note") None in
  fst own = Http.Json 400 (ErrorBody "Cannot send messages to yourself")
  /\ messages (w_db (snd own)) = []
  /\ fst upper = Http.Json 201 (MessageBody
                   {| msg_id := "m6"; senderId := Fixture.idX;
                      receiverId := Fixture.idX;
                      text := "note"; image := ""; createdAt := 5000 |})
  /\ length (messages (w_db (snd upper))) = 1%nat.
Proof. repeat split; vm_compute; reflexivity. Qed.

End Content.

(** * Further properties *)

(** ** Presence map: events *)

Section PresenceEvents.
Import Socket.

Lemma step_lookup_concerned (U : string) (e : event) (st : state) :
  Presence.concerns U e = true ->
  getReceiverSocketId (step st e) U =
  match e with
  | Connection sk => Some (id sk)
  | Disconnect _ => None
  end.
Proof.
  unfold Presence.concerns. intros H. apply String.eqb_eq in H. subst U.
  destruct e as [sk | sk]; simpl.
  - apply lookup_on_connection.
  - apply lookup_on_disconnect.
Qed.

Lemma step_lookup_other (U : string) (e : event) (st : state) :
  Presence.concerns U e = false ->
  getReceiverSocketId (step st e) U = getReceiverSocketId st U.
Proof.
  unfold Presence.concerns. intros H. apply String.eqb_neq in H.
  destruct e as [sk | sk]; unfold getReceiverSocketId; simpl in *.
  - by apply lookup_insert_ne.
  - by apply lookup_delete_ne.
Qed.

(** After any sequence of connections and disconnections, the entry of
    a user is decided by the last event of that user alone: the socket
    id of a connection, nothing after a disconnect, and the initial
    entry when the user had no event. *)
Theorem presence_entry_is_last_event (U : string) (es : list event)
    (st : state) :
  getReceiverSocketId (run es st) U =
  match Presence.last_event U es with
  | Some (Connection sk) => Some (id sk)
  | Some (Disconnect _) => None
  | None => getReceiverSocketId st U
  end.
Proof.
  induction es as [|e es IH] using rev_ind; [done|].
  rewrite run_snoc. unfold Presence.last_event. rewrite List.filter_app. simpl.
  destruct (Presence.concerns U e) eqn:He.
  - rewrite last_snoc. by apply step_lookup_concerned.
  - rewrite app_nil_r. rewrite step_lookup_other by done. exact IH.
Qed.

Lemma broadcasts_step (e : event) (st : state) :
  broadcasts (step st e) = (broadcasts st ++ [keys (userSocketMap (step st e))])%list.
Proof. by destruct e. Qed.

Lemma elem_of_keys (m : gmap string string) (U : string) :
  U ∈ keys m <-> is_Some (m !! U).
Proof.
  unfold keys. rewrite list_elem_of_fmap. split.
  - intros ([u h] & -> & Hin). apply elem_of_map_to_list in Hin. by eexists.
  - intros [h Hh]. exists (U, h). split; [done|]. by apply elem_of_map_to_list.
Qed.

(** Every connection and every disconnection sends one broadcast, and
    the broadcast sent last lists, without repetition, exactly the users
    that have an entry at that moment. *)
Theorem presence_broadcast_is_full_set (es : list event) (e : event)
    (st : state) :
  let st' := run (es ++ [e]) st in
  length (broadcasts st') = (length (broadcasts st) + length es + 1)%nat
  /\ exists online,
       last (broadcasts st') = Some online
       /\ NoDup online
       /\ forall U, U ∈ online <-> is_Some (getReceiverSocketId st' U).
Proof.
  intros st'. split.
  - assert (Hlen : forall l s, length (broadcasts (run l s))
                               = (length (broadcasts s) + length l)%nat).
    { induction l as [|x l IH] using rev_ind; intros s; simpl; [lia|].
      rewrite run_snoc, broadcasts_step, !length_app, IH. simpl. lia. }
    subst st'. rewrite Hlen, length_app. simpl. lia.
  - subst st'. rewrite run_snoc, broadcasts_step.
    eexists. split; [apply last_snoc|]. split; [apply keys_NoDup|].
    intros U. apply elem_of_keys.
Qed.

(** A connection followed by the disconnection of the same socket leaves
    the map as it was, when the user had no entry before. *)
Theorem presence_connect_disconnect_round_trip (sk : socket) (st : state) :
  getReceiverSocketId st (userId sk) = None ->
  userSocketMap (run [Connection sk; Disconnect sk] st) = userSocketMap st.
Proof.
  unfold getReceiverSocketId. intros H. simpl.
  rewrite delete_insert_eq. by apply delete_id.
Qed.

Lemma presence_connect_disconnect_round_trip_witness :
  getReceiverSocketId init "U" = None
  /\ userSocketMap (run [Connection (mkSocket "U" "h"); Disconnect (mkSocket "U" "h")] init)
     = userSocketMap init.
Proof.
  assert (H : getReceiverSocketId init (userId (mkSocket "U" "h")) = None)
    by reflexivity.
  split; [exact H|].
  exact (presence_connect_disconnect_round_trip (mkSocket "U" "h") init H).
Defined.

End PresenceEvents.

(** ** Conversations: symmetry, bounds, counting *)

Section Conversations.
Import MessageService.

Lemma between_sym (A B : string) (m : Message) :
  between A B m = between B A m.
Proof. unfold between. apply orb_comm. Qed.

Lemma candidates_sym db (A B : string) (before : option Z) :
  candidates db A B before = candidates db B A before.
Proof.
  unfold candidates. f_equal. apply filter_ext. intros m.
  unfold query. by rewrite between_sym.
Qed.

(** A conversation does not depend on which of its two users asks: the
    page and the count for [(A, B)] are those for [(B, A)]. *)
Theorem conversation_is_symmetric db (A B : string) (opts : Options) :
  getMessagesBetweenUsers db A B opts = getMessagesBetweenUsers db B A opts
  /\ MessageMaintenance.getMessageCount db A B
     = MessageMaintenance.getMessageCount db B A.
Proof.
  split.
  - unfold getMessagesBetweenUsers. by rewrite candidates_sym.
  - unfold MessageMaintenance.getMessageCount. f_equal.
    apply filter_ext. intros m. apply between_sym.
Qed.

(** A limit that is not negative gives an effective limit from 1 to the
    maximum. *)
Lemma effective_limit_positive (lim : Js.value) :
  (forall n, Js.parseInt lim = Some n -> 0 <= n) ->
  1 <= effective_limit lim <= Config.maxLimit.
Proof.
  intros Hn. unfold effective_limit, Js.num_or, Config.maxLimit, Config.defaultLimit.
  destruct (Js.parseInt lim) as [n|]; [|simpl; lia].
  specialize (Hn n eq_refl).
  destruct (Z.eqb_spec n 0); [simpl; lia|].
  destruct (Z.ltb_spec 100 n); lia.
Qed.

(** Whatever the cursor, a request whose limit is not negative is
    answered with at most the effective limit of messages, hence at most
    100. *)
Theorem page_has_at_most_limit_messages db (me other : string)
    (lim : Js.value) (before : option Z) :
  (forall n, Js.parseInt lim = Some n -> 0 <= n) ->
  Z.of_nat (length (App.getMessagesByUserId db me other lim before))
  <= effective_limit lim
  /\ effective_limit lim <= Config.maxLimit.
Proof.
  intros Hn. destruct (effective_limit_positive lim Hn) as [H1 H2].
  split; [|done]. unfold App.getMessagesByUserId.
  rewrite (page_positive_limit db me other lim before _ eq_refl H1).
  cbn [p_messages]. rewrite length_reverse, length_take. lia.
Qed.

Lemma page_has_at_most_limit_messages_witness :
  (forall n, Js.parseInt (Js.Str "2") = Some n -> 0 <= n)
  /\ Z.of_nat (length (App.getMessagesByUserId Fixture.db0 "X" "Y" (Js.Str "2") None))
     <= 2.
Proof.
  assert (H : forall n, Js.parseInt (Js.Str "2") = Some n -> 0 <= n).
  { intros n Hn. vm_compute in Hn. inversion Hn. lia. }
  split; [exact H|].
  exact (proj1 (page_has_at_most_limit_messages Fixture.db0 "X" "Y" (Js.Str "2") None H)).
Defined.

Lemma length_candidates_no_cursor db (A B : string) :
  length (candidates db A B None) = MessageMaintenance.getMessageCount db A B.
Proof.
  unfold candidates, sort_desc, MessageMaintenance.getMessageCount.
  rewrite (Permutation_length (merge_sort_Permutation newer_first _)).
  f_equal. apply filter_ext. intros m. unfold query. apply andb_true_r.
Qed.

(** Without a cursor and with a limit that is not negative, the page
    holds the smaller of the effective limit and the count of the
    conversation, and [hasMore] tells whether the count exceeds the
    limit. *)
Theorem first_page_agrees_with_count db (A B : string) (lim : Js.value) :
  (forall n, Js.parseInt lim = Some n -> 0 <= n) ->
  let page := getMessagesBetweenUsers db A B
                {| o_limit := lim; o_before := None |} in
  let count := MessageMaintenance.getMessageCount db A B in
  length (p_messages page) = (Z.to_nat (effective_limit lim) `min` count)%nat
  /\ (hasMore page = true <-> effective_limit lim < Z.of_nat count).
Proof.
  intros Hn page count. destruct (effective_limit_positive lim Hn) as [H1 _].
  subst page. rewrite (page_positive_limit db A B lim None _ eq_refl H1).
  cbn [p_messages hasMore]. rewrite length_reverse, length_take.
  rewrite length_candidates_no_cursor. fold count. split; [done|]. lia.
Qed.

Lemma first_page_agrees_with_count_witness :
  (forall n, Js.parseInt (Js.Str "2") = Some n -> 0 <= n)
  /\ MessageMaintenance.getMessageCount Fixture.db0 "X" "Y" = 3%nat
  /\ length (p_messages (getMessagesBetweenUsers Fixture.db0 "X" "Y"
                           {| o_limit := Js.Str "2"; o_before := None |})) = 2%nat.
Proof.
  assert (H : forall n, Js.parseInt (Js.Str "2") = Some n -> 0 <= n).
  { intros n Hn. vm_compute in Hn. inversion Hn. lia. }
  split; [exact H|]. split; [reflexivity|].
  rewrite (proj1 (first_page_agrees_with_count Fixture.db0 "X" "Y" (Js.Str "2") H)).
  reflexivity.
Defined.

End Conversations.

(** ** Sending, then reading *)

Section SendThenRead.
Import MessageService.

(** The head of a list sorted newest first, when one element is strictly
    newer than all the others. *)
Lemma head_sort_desc_newest (l : list Message) (m : Message) :
  In m l ->
  (forall x, In x l -> x = m \/ createdAt x < createdAt m) ->
  head (sort_desc l) = Some m.
Proof.
  intros Hm Hnew.
  pose proof (sort_desc_sorted l) as Hs.
  assert (Hin : In m (sort_desc l)) by by apply In_sort_desc.
  destruct (sort_desc l) as [|h t] eqn:Hl; [done|]. simpl. f_equal.
  assert (Hh : In h l) by (apply In_sort_desc; rewrite Hl; by left).
  destruct (Hnew h Hh) as [-> | Hlt]; [done|].
  apply StronglySorted_cons in Hs as [Hall _]. rewrite Forall_forall in Hall.
  destruct Hin as [-> | Hin]; [done|].
  apply list_elem_of_In, Hall in Hin. unfold newer_first in Hin. lia.
Qed.

Lemma head_take {A} (k : nat) (l : list A) :
  (0 < k)%nat -> head (take k l) = head l.
Proof. destruct k; [lia|]. by destruct l. Qed.

(** Write, then read: once [sendMessage] has stored a message at a clock
    value later than every stored message, the first page of the
    conversation, asked by either user with a limit that is not
    negative, ends with that message. *)
Theorem sent_message_is_newest_of_first_page db oid now (X Y : string)
    (content : Content) (m : Message) db' (lim : Js.value) :
  sendMessage db oid now X Y content = (inr m, db') ->
  later_than_all db now ->
  (forall n, Js.parseInt lim = Some n -> 0 <= n) ->
  last (p_messages (getMessagesBetweenUsers db' X Y
                      {| o_limit := lim; o_before := None |})) = Some m
  /\ last (p_messages (getMessagesBetweenUsers db' Y X
                         {| o_limit := lim; o_before := None |})) = Some m.
Proof.
  intros Hsend Hlater Hn.
  destruct (effective_limit_positive lim Hn) as [H1 _].
  apply sendMessage_success in Hsend as (_ & _ & _ & Hm & Hmsgs & _).
  assert (Hpage : last (p_messages (getMessagesBetweenUsers db' X Y
                          {| o_limit := lim; o_before := None |})) = Some m).
  { rewrite (page_positive_limit db' X Y lim None _ eq_refl H1).
    cbn [p_messages]. rewrite last_reverse, head_take by lia.
    unfold candidates. apply head_sort_desc_newest.
    - apply filter_In. split.
      + rewrite Hmsgs. apply in_or_app. right. by left.
      + subst m. unfold query, between. cbn [senderId receiverId].
        by rewrite !String.eqb_refl.
    - intros x Hx. apply filter_In in Hx as [Hx _]. rewrite Hmsgs in Hx.
      apply in_app_or in Hx as [Hx | [<- | []]]; [right|by left].
      unfold later_than_all in Hlater. rewrite Forall_forall in Hlater.
      apply list_elem_of_In, Hlater in Hx. by subst m. }
  split; [exact Hpage|].
  unfold getMessagesBetweenUsers in *. by rewrite <- (candidates_sym db' X Y).
Qed.

Lemma sent_message_is_newest_of_first_page_witness :
  let m := {| msg_id := "m6"; senderId := "X"; receiverId := "Y";
              text := "hi"; image := ""; createdAt := 5000 |} in
  later_than_all Fixture.db0 5000
  /\ last (p_messages (getMessagesBetweenUsers
             {| messages := (messages Fixture.db0 ++ [m])%list;
                users := users Fixture.db0 |} "X" "Y"
             {| o_limit := Js.Undefined; o_before := None |})) = Some m.
Proof.
  intros m.
  assert (Hl : later_than_all Fixture.db0 5000).
  { unfold later_than_all. simpl. repeat constructor; simpl; lia. }
  split; [exact Hl|].
  refine (proj1 (sent_message_is_newest_of_first_page Fixture.db0 "m6" 5000
                   "X" "Y" {| c_text := Some "hi"; c_image := None |} m _
                   Js.Undefined _ Hl _)).
  - vm_compute. reflexivity.
  - intros n Hn. discriminate Hn.
Defined.




End SendThenRead.

(** ** Sorting under a map that keeps the order *)

Section SortMap.
Context {A : Type} (R : relation A) `{!RelDecision R} (f : A -> A).
Hypothesis f_keeps : forall x y, R (f x) (f y) <-> R x y.

Lemma list_merge_map (l1 l2 : list A) :
  list_merge R (List.map f l1) (List.map f l2) = List.map f (list_merge R l1 l2).
Proof.
  revert l2. induction l1 as [|x1 l1 IH1]; intros l2.
  - cbn [List.map]. by rewrite !list_merge_nil_l.
  - induction l2 as [|x2 l2 IH2].
    + cbn [List.map]. by rewrite !list_merge_nil_r.
    + cbn [List.map]. rewrite !list_merge_cons.
      destruct (decide (R (f x1) (f x2))) as [H | H],
        (decide (R x1 x2)) as [H' | H']; cbn [List.map].
      * f_equal. apply (IH1 (x2 :: l2)).
      * exfalso. apply H'. by apply f_keeps.
      * exfalso. apply H. by apply f_keeps.
      * f_equal. apply IH2.
Qed.

Local Abbreviation map_stack st := (List.map (option_map (List.map f)) st).

Lemma merge_list_to_stack_map st (l : list A) :
  merge_list_to_stack R (map_stack st) (List.map f l)
  = map_stack (merge_list_to_stack R st l).
Proof.
  revert l. induction st as [|[l'|] st IH]; intros l; simpl; [done| |done].
  f_equal. rewrite list_merge_map. apply IH.
Qed.

Lemma merge_stack_map st :
  merge_stack R (map_stack st) = List.map f (merge_stack R st).
Proof.
  induction st as [|[l'|] st IH]; simpl; [done| |done].
  by rewrite IH, list_merge_map.
Qed.

Lemma merge_sort_aux_map st (l : list A) :
  merge_sort_aux R (map_stack st) (List.map f l)
  = List.map f (merge_sort_aux R st l).
Proof.
  revert st. induction l as [|x l IH]; intros st; simpl.
  - apply merge_stack_map.
  - rewrite <- IH. f_equal. apply (merge_list_to_stack_map st [x]).
Qed.

(** Sorting commutes with a map that keeps the order. *)
Lemma merge_sort_map (l : list A) :
  merge_sort R (List.map f l) = List.map f (merge_sort R l).
Proof. apply (merge_sort_aux_map []). Qed.

End SortMap.

(** ** Soft deletion *)

Section Deletion.
Import MessageService MessageMaintenance.

Lemma findById_Some db (id : string) (x : Message) :
  findById db id = Some x -> In x (messages db) /\ msg_id x = id.
Proof.
  unfold findById. intros H. apply find_some in H as [Hin Hid].
  by apply String.eqb_eq in Hid.
Qed.

Lemma findById_None db (id : string) :
  findById db id = None -> forall x, In x (messages db) -> msg_id x <> id.
Proof.
  unfold findById. intros H x Hx Hid.
  apply (find_none _ _ H) in Hx. apply String.eqb_neq in Hx. done.
Qed.

(** [deleteMessage] either fails and leaves the store as it was, with
    "not found" exactly when no document has the id and "bad request"
    when the document found was sent by someone else, or succeeds for
    the sender of the document and returns its tombstone. *)
Theorem deleteMessage_only_by_sender db (id user : string) :
  match deleteMessage db id user with
  | (inl e, db') =>
      db' = db
      /\ ((e = NotFoundError "Message not found"
           /\ forall x, In x (messages db) -> msg_id x <> id)
          \/ (e = BadRequestError "You can only delete your own messages"
              /\ exists x, findById db id = Some x /\ senderId x <> user))
  | (inr m', db') =>
      exists x, In x (messages db) /\ msg_id x = id /\ senderId x = user
                /\ m' = tombstone x
                /\ text m' = "This message was deleted" /\ image m' = ""
  end.
Proof.
  unfold deleteMessage.
  destruct (findById db id) as [x|] eqn:Hfind.
  - destruct (findById_Some db id x Hfind) as [Hin Hid].
    destruct (String.eqb_spec (senderId x) user) as [Hs | Hs]; cbn [negb].
    + exists x. by repeat split.
    + split; [done|]. right. split; [done|]. by exists x.
  - split; [done|]. left. split; [done|]. by apply findById_None.
Qed.

Lemma save_ids (m : Message) (l : list Message) :
  List.map msg_id (save m l) = List.map msg_id l.
Proof.
  induction l as [|x l IH]; simpl; [done|].
  destruct (String.eqb_spec (msg_id x) (msg_id m)) as [He | He]; simpl;
    [by rewrite He|by rewrite IH].
Qed.

Lemma map_blank_absent (id : string) (l : list Message) :
  (forall x, In x l -> msg_id x <> id) -> List.map (blank id) l = l.
Proof.
  induction l as [|x l IH]; simpl; [done|]. intros H.
  rewrite IH by (intros y Hy; apply H; by right).
  unfold blank. destruct (String.eqb_spec (msg_id x) id) as [He | He]; [|done].
  exfalso. apply (H x); [by left|done].
Qed.

(** With distinct ids, saving the tombstone of the document found is
    blanking the documents of that id. *)
Lemma save_tombstone_is_map (l : list Message) (id : string) (x : Message) :
  NoDup (List.map msg_id l) ->
  List.find (fun m => String.eqb (msg_id m) id) l = Some x ->
  save (tombstone x) l = List.map (blank id) l.
Proof.
  induction l as [|y l IH]; simpl; [done|].
  rewrite NoDup_cons. intros [Hy Hnd].
  unfold blank at 1. cbn [tombstone msg_id].
  destruct (String.eqb_spec (msg_id y) id) as [He | He].
  - intros [= <-]. rewrite He, String.eqb_refl. f_equal.
    symmetry. apply map_blank_absent. intros z Hz Hzid. apply Hy.
    rewrite list_elem_of_In, He, <- Hzid. by apply in_map.
  - intros Hfind. assert (msg_id x = id) as Hx.
    { apply find_some in Hfind as [_ H]. by apply String.eqb_eq in H. }
    rewrite Hx. destruct (String.eqb_spec (msg_id y) id); [done|].
    f_equal. by apply IH.
Qed.

Lemma blank_msg_id (id : string) (y : Message) : msg_id (blank id y) = msg_id y.
Proof. unfold blank. by destruct (String.eqb (msg_id y) id). Qed.

Lemma find_map_blank (id : string) (l : list Message) (x : Message) :
  List.find (fun m => String.eqb (msg_id m) id) l = Some x ->
  List.find (fun m => String.eqb (msg_id m) id) (List.map (blank id) l)
  = Some (tombstone x).
Proof.
  induction l as [|y l IH]; cbn [List.map List.find]; [done|].
  rewrite blank_msg_id.
  destruct (String.eqb_spec (msg_id y) id) as [He | He]; [|done].
  intros [= <-]. unfold blank. apply String.eqb_eq in He. by rewrite He.
Qed.

Lemma deleteMessage_messages db (id user : string) (m' : Message) db' :
  NoDup (List.map msg_id (messages db)) ->
  deleteMessage db id user = (inr m', db') ->
  messages db' = List.map (blank id) (messages db) /\ users db' = users db.
Proof.
  intros Hnd. unfold deleteMessage.
  destruct (findById db id) as [x|] eqn:Hfind; [|done].
  destruct (negb (String.eqb (senderId x) user)); [done|].
  intros [= <- <-]. cbn [messages users].
  by rewrite (save_tombstone_is_map (messages db) id x Hnd Hfind).
Qed.

(** With distinct ids in the collection, a successful [deleteMessage]
    blanks the document of that id and nothing else: the collection
    afterwards is the old one with that document replaced by its
    tombstone, which keeps the id, the two users and [createdAt]; the
    users are untouched. *)
Theorem deleteMessage_blanks_one_document db (id user : string)
    (m' : Message) db' :
  NoDup (List.map msg_id (messages db)) ->
  deleteMessage db id user = (inr m', db') ->
  messages db' = List.map (blank id) (messages db)
  /\ users db' = users db
  /\ List.map msg_id (messages db') = List.map msg_id (messages db)
  /\ List.map createdAt (messages db') = List.map createdAt (messages db)
  /\ (forall x, In x (messages db) -> msg_id x <> id -> In x (messages db'))
  /\ findById db' id = Some m'.
Proof.
  intros Hnd. unfold deleteMessage.
  destruct (findById db id) as [x|] eqn:Hfind; [|done].
  destruct (negb (String.eqb (senderId x) user)); [done|].
  intros [= <- <-]. cbn [messages users].
  assert (Hsave := save_tombstone_is_map (messages db) id x Hnd Hfind).
  rewrite Hsave. split; [done|]. split; [done|]. split; [|split; [|split]].
  - by rewrite <- Hsave, save_ids.
  - rewrite List.map_map. apply map_ext. intros y. unfold blank.
    by destruct (String.eqb (msg_id y) id).
  - intros y Hy Hne. apply in_map_iff. exists y. split; [|done].
    unfold blank. by destruct (String.eqb_spec (msg_id y) id).
  - unfold findById in *. cbn [messages]. by apply find_map_blank.
Qed.

Lemma deleteMessage_blanks_one_document_witness :
  NoDup (List.map msg_id (messages Fixture.db0))
  /\ List.map text (messages (snd (deleteMessage Fixture.db0 "m2" "Y")))
     = ["hello"; "This message was deleted"; "again"; "are you there"; "ping"].
Proof.
  assert (Hnd : NoDup (List.map msg_id (messages Fixture.db0))).
  { vm_compute. repeat constructor; rewrite ?list_elem_of_In; simpl; intuition congruence. }
  split; [exact Hnd|].
  rewrite (proj1 (deleteMessage_blanks_one_document Fixture.db0 "m2" "Y"
                    (tombstone Fixture.m2)
                    (snd (deleteMessage Fixture.db0 "m2" "Y")) Hnd eq_refl)).
  vm_compute. reflexivity.
Defined.

End Deletion.

Section DeletionAndPages.
Import MessageService MessageMaintenance.

Lemma getMessagesBetweenUsers_unfold db (u1 u2 : string) (opts : Options) :
  getMessagesBetweenUsers db u1 u2 opts
  = page_of_candidates (effective_limit (o_limit opts))
      (candidates db u1 u2 (o_before opts)).
Proof. reflexivity. Qed.

Lemma reverse_map {A B} (f : A -> B) (l : list A) :
  reverse (List.map f l) = List.map f (reverse l).
Proof.
  induction l as [|x l IH]; simpl; [done|].
  by rewrite !reverse_cons, IH, List.map_app.
Qed.

Lemma last_map {A B} (f : A -> B) (l : list A) :
  last (List.map f l) = option_map f (last l).
Proof.
  induction l as [|x l IH]; [done|]. destruct l as [|y l]; [done|].
  cbn [List.map] in *. by rewrite !last_cons_cons.
Qed.

Lemma removelast_map {A B} (f : A -> B) (l : list A) :
  removelast (List.map f l) = List.map f (removelast l).
Proof.
  rewrite !removelast_take, length_map. apply firstn_map.
Qed.

Lemma mongo_limit_map {A B} (f : A -> B) (n : Z) (l : list A) :
  mongo_limit n (List.map f l) = List.map f (mongo_limit n l).
Proof.
  unfold mongo_limit. destruct (n =? 0); [done|]. apply firstn_map.
Qed.

(** A change of the messages that keeps [createdAt] goes through the
    making of the page. *)
Lemma page_of_candidates_map (f : Message -> Message) (limit : Z)
    (cands : list Message) :
  (forall x, createdAt (f x) = createdAt x) ->
  page_of_candidates limit (List.map f cands)
  = map_page f (page_of_candidates limit cands).
Proof.
  intros Hf. unfold page_of_candidates, map_page.
  cbn [p_messages hasMore nextCursor].
  rewrite mongo_limit_map, length_map.
  set (found := mongo_limit (limit + 1) cands).
  destruct (limit <? Z.of_nat (length found)).
  - rewrite removelast_map, reverse_map, length_map, last_map. f_equal.
    destruct (true && _); [|done].
    destruct (last (removelast found)) as [x|]; [|done]. simpl. by rewrite Hf.
  - rewrite reverse_map. done.
Qed.

Lemma blank_createdAt (id : string) (x : Message) :
  createdAt (blank id x) = createdAt x.
Proof. unfold blank. by destruct (String.eqb (msg_id x) id). Qed.

Lemma blank_query (id u1 u2 : string) (before : option Z) (x : Message) :
  query u1 u2 before (blank id x) = query u1 u2 before x.
Proof. unfold blank. by destruct (String.eqb (msg_id x) id). Qed.

Lemma filter_map_blank (id : string) (q : Message -> bool) (l : list Message) :
  (forall x, q (blank id x) = q x) ->
  List.filter q (List.map (blank id) l) = List.map (blank id) (List.filter q l).
Proof.
  intros Hq. induction l as [|x l IH]; simpl; [done|].
  rewrite Hq. destruct (q x); simpl; by rewrite IH.
Qed.

(** With distinct ids in the collection, a soft delete changes no
    page but for the content of the deleted message: every page of every
    conversation holds the same ids in the same order with the same
    [hasMore] and [nextCursor], the deleted message appearing as its
    tombstone; and every count is what it was. *)
Theorem deleteMessage_keeps_pages db (id user : string) (m' : Message) db'
    (A B : string) (opts : Options) :
  NoDup (List.map msg_id (messages db)) ->
  deleteMessage db id user = (inr m', db') ->
  getMessagesBetweenUsers db' A B opts
  = map_page (blank id) (getMessagesBetweenUsers db A B opts)
  /\ List.map msg_id (p_messages (getMessagesBetweenUsers db' A B opts))
     = List.map msg_id (p_messages (getMessagesBetweenUsers db A B opts))
  /\ getMessageCount db' A B = getMessageCount db A B.
Proof.
  intros Hnd Hdel.
  destruct (deleteMessage_messages db id user m' db' Hnd Hdel) as (Hmsgs & _).
  assert (Hpage : getMessagesBetweenUsers db' A B opts
                  = map_page (blank id) (getMessagesBetweenUsers db A B opts)).
  { rewrite !getMessagesBetweenUsers_unfold.
    rewrite <- page_of_candidates_map by apply blank_createdAt. f_equal.
    unfold candidates, sort_desc. rewrite Hmsgs.
    rewrite filter_map_blank by apply blank_query.
    apply merge_sort_map. intros x y. unfold newer_first.
    by rewrite !blank_createdAt. }
  split; [exact Hpage|]. split.
  - rewrite Hpage. unfold map_page. cbn [p_messages]. rewrite List.map_map.
    apply map_ext. intros x. apply blank_msg_id.
  - unfold getMessageCount. rewrite Hmsgs.
    rewrite filter_map_blank; [by rewrite length_map|].
    intros x. unfold blank. by destruct (String.eqb (msg_id x) id).
Qed.

Lemma deleteMessage_keeps_pages_witness :
  NoDup (List.map msg_id (messages Fixture.db0))
  /\ List.map text
       (p_messages (getMessagesBetweenUsers (snd (deleteMessage Fixture.db0 "m2" "Y"))
                      "X" "Y" {| o_limit := Js.Undefined; o_before := None |}))
     = ["hello"; "This message was deleted"; "again"].
Proof.
  assert (Hnd : NoDup (List.map msg_id (messages Fixture.db0))).
  { vm_compute. repeat constructor; rewrite ?list_elem_of_In; simpl; intuition congruence. }
  split; [exact Hnd|].
  rewrite (proj1 (deleteMessage_keeps_pages Fixture.db0 "m2" "Y"
                    (tombstone Fixture.m2)
                    (snd (deleteMessage Fixture.db0 "m2" "Y")) "X" "Y"
                    {| o_limit := Js.Undefined; o_before := None |} Hnd eq_refl)).
  vm_compute. reflexivity.
Defined.

Lemma find_save_tombstone (id : string) (l : list Message) (x : Message) :
  List.find (fun m => String.eqb (msg_id m) id) l = Some x ->
  List.find (fun m => String.eqb (msg_id m) id) (save (tombstone x) l)
  = Some (tombstone x).
Proof.
  intros Hfind. assert (Hx : msg_id x = id).
  { apply find_some in Hfind as [_ H]. by apply String.eqb_eq in H. }
  revert Hfind. induction l as [|y l IH]; cbn [save List.find]; [done|].
  cbn [tombstone msg_id]. rewrite Hx.
  destruct (String.eqb_spec (msg_id y) id) as [He | He].
  - intros _. cbn [List.find tombstone msg_id]. by rewrite Hx, String.eqb_refl.
  - intros Hfind. cbn [List.find]. apply String.eqb_neq in He. rewrite He.
    by apply IH.
Qed.

Lemma save_idem (m : Message) (l : list Message) :
  save m (save m l) = save m l.
Proof.
  induction l as [|y l IH]; cbn [save]; [done|].
  destruct (String.eqb (msg_id y) (msg_id m)) eqn:He; cbn [save].
  - by rewrite String.eqb_refl.
  - by rewrite He, IH.
Qed.

(** Deleting a deleted message again, as its sender, succeeds with the
    same tombstone and leaves the store as the first deletion left it. *)
Theorem deleteMessage_is_idempotent db (id user : string) (m' : Message) db' :
  deleteMessage db id user = (inr m', db') ->
  deleteMessage db' id user = (inr m', db').
Proof.
  unfold deleteMessage.
  destruct (findById db id) as [x|] eqn:Hfind; [|done].
  destruct (String.eqb (senderId x) user) eqn:Hs; cbn [negb]; [|done].
  intros [= <- <-]. unfold findById in *. cbn [messages].
  rewrite (find_save_tombstone id (messages db) x Hfind).
  cbn [tombstone senderId]. rewrite Hs. cbn [negb].
  change (tombstone (tombstone x)) with (tombstone x).
  by rewrite save_idem.
Qed.

Lemma deleteMessage_is_idempotent_witness :
  let db1 := snd (deleteMessage Fixture.db0 "m2" "Y") in
  deleteMessage db1 "m2" "Y" = (inr (tombstone Fixture.m2), db1).
Proof.
  intros db1.
  exact (deleteMessage_is_idempotent Fixture.db0 "m2" "Y" (tombstone Fixture.m2)
           db1 eq_refl).
Defined.

End DeletionAndPages.

(** ** Chat partners: who is listed *)

Global Instance recent_first_trans : Transitive MessageService.recent_first.
Proof. intros p1 p2 p3. unfold MessageService.recent_first. lia. Qed.

Section PartnerList.
Import MessageService.

Lemma In_grouped_message db (U : string) (d : Grouped) :
  In d (group_first (List.map (project_partner U)
          (sort_desc (List.filter (involves U) (messages db))))) ->
  In (lastMessage d) (messages db)
  /\ between U (partnerId d) (lastMessage d) = true.
Proof.
  intros Hd. apply group_first_In, in_map_iff in Hd as (m & <- & Hm).
  apply In_sort_desc, filter_In in Hm as [Hm Hinv].
  split; [done|]. by apply between_partner.
Qed.

Lemma partner_listed_iff db (U P : string) :
  (exists e, In e (getChatPartners db U) /\ p_id e = P)
  <-> is_Some (users db !! P)
      /\ exists m, In m (messages db) /\ between U P m = true.
Proof.
  split.
  - intros (e & He & <-).
    apply In_getChatPartners in He as (d & u & Hd & Hu & ->).
    cbn [project_final p_id]. split; [by eexists|].
    exists (lastMessage d). by apply In_grouped_message.
  - intros [[u Hu] (m & Hm & Hb)]. apply between_partner in Hb as [Hinv Hp].
    destruct (group_first_complete
                (List.map (project_partner U)
                   (sort_desc (List.filter (involves U) (messages db))))
                (project_partner U m)) as (d & Hd & Hpd).
    { apply in_map, In_sort_desc. by apply filter_In. }
    exists (project_final (d, u)). split; [|cbn [project_final p_id]; congruence].
    apply In_getChatPartners. exists d, u. split; [done|]. split; [|done].
    congruence.
Qed.

(** A user [P] is listed among the chat partners of [U] exactly when [P]
    has a user document and the store holds a message between [U] and
    [P]. *)
Theorem chat_partner_listed_iff db (U P : string) :
  (exists e, In e (getChatPartners db U) /\ p_id e = P)
  <-> is_Some (users db !! P)
      /\ exists m, In m (messages db)
                   /\ ((senderId m = U /\ receiverId m = P)
                       \/ (senderId m = P /\ receiverId m = U)).
Proof.
  rewrite partner_listed_iff. unfold between.
  split; intros [HP (m & Hm & Hb)]; (split; [done|]); exists m; (split; [done|]).
  - apply orb_true_iff in Hb. by rewrite !andb_true_iff, !String.eqb_eq in Hb.
  - apply orb_true_iff. by rewrite !andb_true_iff, !String.eqb_eq.
Qed.

(** Being chat partners is mutual: when both users have a document, [Y]
    is listed for [X] exactly when [X] is listed for [Y]. *)
Theorem chat_partners_are_mutual db (X Y : string) :
  is_Some (users db !! X) -> is_Some (users db !! Y) ->
  (exists e, In e (getChatPartners db X) /\ p_id e = Y)
  <-> (exists e, In e (getChatPartners db Y) /\ p_id e = X).
Proof.
  intros HX HY. rewrite !partner_listed_iff.
  split; intros [_ (m & Hm & Hb)]; (split; [done|]); exists m;
    (split; [done|]); by rewrite between_sym.
Qed.

Lemma chat_partners_are_mutual_witness :
  is_Some (users Fixture.db0 !! "X") /\ is_Some (users Fixture.db0 !! "W")
  /\ (exists e, In e (getChatPartners Fixture.db0 "W") /\ p_id e = "X").
Proof.
  assert (HX : is_Some (users Fixture.db0 !! "X")) by (vm_compute; eauto).
  assert (HW : is_Some (users Fixture.db0 !! "W")) by (vm_compute; eauto).
  split; [exact HX|]. split; [exact HW|].
  apply (chat_partners_are_mutual Fixture.db0 "X" "W" HX HW).
  exists {| p_id := "W"; p_email := "w@example.org"; p_fullName := "Wim";
            p_profilePic := "https://avatar.iran.liara.run/public";
            p_lastMessage := Fixture.m5 |}.
  split; [|reflexivity]. vm_compute. right. left. reflexivity.
Defined.





End PartnerList.

(** ** An invariant: no message to oneself *)

Section NoSelfMessage.
Import MessageService MessageMaintenance.




End NoSelfMessage.

(** ** Profiles *)

Section Profiles.
Import MessageService UserService.

(** Every chat partner entry carries the profile [getUserById] returns
    for that id: same id, email and name, and the same picture unless
    the stored [profilePic] is the empty string. *)
Theorem partner_profile_is_user_profile db (U : string) (e : Partner) :
  In e (getChatPartners db U) ->
  exists stored u,
    users db !! p_id e = Some stored
    /\ getUserById db (p_id e) = inr u
    /\ userExists db (p_id e) = true
    /\ u_id u = p_id e /\ u_email u = p_email e /\ u_fullName u = p_fullName e
    /\ (profilePic stored <> Some "" -> u_profilePic u = p_profilePic e).
Proof.
  intros He. apply In_getChatPartners in He as (d & stored & _ & Hu & ->).
  cbn [project_final p_id p_email p_fullName p_profilePic].
  exists stored, (present (partnerId d) stored).
  unfold getUserById, userExists. rewrite Hu.
  repeat (split; [done|]). intros Hpic. unfold present. cbn [u_profilePic].
  destruct (profilePic stored) as [pic|]; [|done].
  unfold Js.truthy. destruct (String.eqb_spec pic ""); [congruence|done].
Qed.

Lemma partner_profile_is_user_profile_witness :
  exists u, getUserById Fixture.db0 "Y" = inr u /\ u_profilePic u = "yara.png".
Proof.
  destruct (partner_profile_is_user_profile Fixture.db0 "X"
              {| p_id := "Y"; p_email := "y@example.org"; p_fullName := "Yara";
                 p_profilePic := "yara.png"; p_lastMessage := Fixture.m3 |})
    as (stored & u & Hs & Hu & _ & _ & _ & _ & Hpic).
  - vm_compute. left. reflexivity.
  - exists u. split; [exact Hu|]. apply Hpic.
    cbn [p_id] in Hs. vm_compute in Hs. inversion Hs. discriminate.
Defined.

(** With an empty [profilePic] stored, the two disagree: the user
    service falls back to the default avatar, the aggregation does not. *)
Example empty_profilePic_differs :
  let db := {| messages := [Fixture.m1];
               users := <["Y" := mkUser "y@example.org" "Yara" (Some "")]> ∅ |} in
  List.map p_profilePic (getChatPartners db "X") = [""]
  /\ getUserById db "Y"
     = inr {| u_id := "Y"; u_email := "y@example.org"; u_fullName := "Yara";
              u_profilePic := "https://avatar.iran.liara.run/public" |}.
Proof. split; vm_compute; reflexivity. Qed.

End Profiles.

(** ** The send route, as answered *)

Section SendRoute.
Import MessageController.

(** The answers of the image part of the handler. *)
Lemma Http_upload_image_answers (env : Http.Env) (img : option string) resp logged :
  Http.upload_image env img = inl (resp, logged) ->
  resp = Http.Json 400 (ErrorBody "Invalid image format. Expected base64-encoded image.")
  \/ resp = Http.Json 400 (ErrorBody "Image size exceeds 5MB limit.")
  \/ resp = Http.Json 500 (ErrorBody "Failed to upload image.").
Proof.
  unfold Http.upload_image. destruct (Js.truthy img); [|done].
  destruct (negb _); [intros [= <- _]; tauto|].
  destruct (Http.too_large _); [intros [= <- _]; tauto|].
  destruct (cloudinary_upload (Http.base env) _); [done|intros [= <- _]; tauto].
Qed.

(** The answer to a send request, after the error handler: the status
    is 201, 400, 404 or 500; it is 201 exactly when one message has been
    appended to the collection, the body then being that message; with
    any other status the store is unchanged and nothing has been
    pushed. *)
Theorem post_send_stores_iff_201 (env : Http.Env) (w : World) (sender id : string)
    (txt img : option string) :
  let r := Http.post_send_answered env w sender id txt img in
  let s := Http.status (fst r) in
  (s = 201 \/ s = 400 \/ s = 404 \/ s = 500)
  /\ (s = 201 ->
      exists m, fst r = Http.Json 201 (MessageBody m)
                /\ messages (w_db (snd r)) = (messages (w_db w) ++ [m])%list)
  /\ (s <> 201 -> w_db (snd r) = w_db w /\ w_pushed (snd r) = w_pushed w).
Proof.
  intros r s. subst s r. unfold Http.post_send_answered, Http.post_send.
  destruct (Http.validateSendMessage env id txt img) as [[txt' img']|] eqn:Hv.
  2: { cbn. split; [tauto|]. by split. }
  unfold Http.controller.
  destruct (Http.upload_image env img') as [[resp logged] | url] eqn:Hup.
  { destruct (Http_upload_image_answers env img' resp logged Hup)
      as [-> | [-> | ->]]; cbn; (split; [tauto|]); by split. }
  unfold Http.send_with_image.
  destruct (Http.sendMessage _ _ _ _ _ _) as [[f | m] db'] eqn:Hsend.
  - destruct f as [[msg | msg | msg] | value]; cbn;
      (split; [tauto|]); by split.
  - cbn [fst snd Http.status]. rewrite push_newMessage_db. cbn [w_db].
    apply Http_sendMessage_success in Hsend as (_ & _ & R & _ & _ & _ & Hmsgs & _).
    split; [tauto|]. split; [intros _; by exists m|]. done.
Qed.

(** The validator and the schema measure a text differently: 1001
    characters beyond the basic plane pass [isLength({ max: 2000 })] as
    validator.js counts them and are 2002 code units for [maxlength], so
    the request gets past the validator, the schema refuses the text,
    and the answer is 400 with nothing stored. *)
Example schema_maxlength_behind_validator :
  let smile := Utf8.bytes [240; 159; 152; 128]%nat in
  let txt := string_of_list_ascii (concat (repeat smile 1001)) in
  let r := Http.post_send HttpFixture.env Fixture.world1 Fixture.idX Fixture.idY
             (Some txt) None in
  let r' := Http.post_send_answered HttpFixture.env Fixture.world1 Fixture.idX
              Fixture.idY (Some txt) None in
  Validator.counted_length txt = 1001%nat
  /\ Utf8.utf16_length txt = 2002%nat
  /\ Http.validateSendMessage HttpFixture.env Fixture.idY (Some txt) None
     = Some (Some txt, None)
  /\ (exists msg,
        fst r = Http.Thrown
                  (Http.ApiFailure (MessageService.SchemaValidationError msg)))
  /\ Http.status (fst r') = 400
  /\ w_db (snd r') = w_db Fixture.world1
  /\ w_log (snd r') = [LogWarn "Client Error"].
Proof.
  intros smile txt r r'.
  split; [vm_compute; reflexivity|]. split; [vm_compute; reflexivity|].
  split; [vm_compute; reflexivity|].
  split; [eexists; vm_compute; reflexivity|].
  repeat split; vm_compute; reflexivity.
Qed.

(** An id of [0x] and 22 hexadecimal digits passes [isMongoId] and is
    no [ObjectId]: the cast fails and the request is answered 400. *)
Example prefixed_id_is_a_cast_error :
  let id := "0x64b7f0a1c2d3e4f5a6b7c8" in
  Validator.isMongoId id = true
  /\ ObjectId.cast id = None
  /\ fst (Http.post_send HttpFixture.env Fixture.world1 Fixture.idX id (Some "hi") None)
     = Http.Thrown (Http.CastError id)
  /\ Http.status
       (fst (Http.post_send_answered HttpFixture.env Fixture.world1 Fixture.idX id
               (Some "hi") None)) = 400.
Proof. repeat split; vm_compute; reflexivity. Qed.

End SendRoute.

(** ** Paging through a whole conversation *)

Section Completeness.
Import MessageService.

Lemma NoDup_map_inj {A B} (f : A -> B) (l : list A) (x y : A) :
  NoDup (List.map f l) -> In x l -> In y l -> f x = f y -> x = y.
Proof.
  induction l as [|z l IH]; simpl; [done|].
  rewrite NoDup_cons. intros [Hz Hnd] [-> | Hx] [-> | Hy] Heq; [done| | |by apply IH].
  - exfalso. apply Hz. rewrite list_elem_of_In, Heq. by apply in_map.
  - exfalso. apply Hz. rewrite list_elem_of_In, <- Heq. by apply in_map.
Qed.

Lemma NoDup_of_map {A B} (f : A -> B) (l : list A) :
  NoDup (List.map f l) -> NoDup l.
Proof.
  induction l as [|z l IH]; simpl; [constructor|].
  rewrite !NoDup_cons. intros [Hz Hnd]. split; [|by apply IH].
  intros Hin. apply Hz. rewrite list_elem_of_In. apply in_map.
  by rewrite <- list_elem_of_In.
Qed.

Lemma NoDup_List_filter {A} (p : A -> bool) (l : list A) :
  NoDup l -> NoDup (List.filter p l).
Proof.
  induction l as [|z l IH]; simpl; [done|].
  rewrite NoDup_cons. intros [Hz Hnd]. destruct (p z); [|by apply IH].
  apply NoDup_cons. split; [|by apply IH].
  intros Hin. apply Hz. rewrite list_elem_of_In in Hin.
  apply filter_In in Hin as [Hin _]. by rewrite list_elem_of_In.
Qed.

Lemma filter_query_split (u1 u2 : string) (before : option Z) (l : list Message) :
  List.filter (query u1 u2 before) l
  = List.filter (fun m => match before with
                          | Some c => createdAt m <? c
                          | None => true
                          end)
      (List.filter (between u1 u2) l).
Proof.
  induction l as [|z l IH]; simpl; [done|]. unfold query at 1.
  destruct (between u1 u2 z); simpl; [|exact IH].
  destruct (match before with Some c => createdAt z <? c | None => true end);
    by rewrite IH.
Qed.

Variables (db : Db) (A B : string).
Hypothesis distinct_times :
  NoDup (List.map createdAt (List.filter (between A B) (messages db))).

Lemma candidate_in_pair before x :
  In x (candidates db A B before) -> In x (List.filter (between A B) (messages db)).
Proof.
  intros H. apply In_candidates in H as [Hin Hq]. apply filter_In.
  split; [done|]. by eapply query_between.
Qed.

Lemma candidates_same_time before x y :
  In x (candidates db A B before) -> In y (candidates db A B before) ->
  createdAt x = createdAt y -> x = y.
Proof.
  intros Hx Hy. apply (NoDup_map_inj createdAt _ x y distinct_times);
    by eapply candidate_in_pair.
Qed.

Lemma candidates_NoDup before : NoDup (candidates db A B before).
Proof.
  unfold candidates, sort_desc.
  rewrite merge_sort_Permutation, filter_query_split.
  apply NoDup_List_filter. by eapply NoDup_of_map.
Qed.

(** The candidates below the cursor taken at position [k] are the
    candidates from position [k] on. *)
Lemma candidates_after_cursor before (k : nat) (y : Message) :
  last (take k (candidates db A B before)) = Some y ->
  candidates db A B (Some (createdAt y)) = drop k (candidates db A B before).
Proof.
  intros Hlast. set (cands := candidates db A B before) in *.
  assert (Hs : StronglySorted newer_first cands) by apply candidates_sorted.
  assert (Hnd : NoDup cands) by apply candidates_NoDup.
  assert (Hy : In y (take k cands))
    by (apply list_elem_of_In; by apply last_Some_elem_of).
  rewrite <- (take_drop k cands) in Hs, Hnd.
  apply StronglySorted_unique_strong with (R := newer_first).
  - intros x1 x2 H1 H2 H12 H21. unfold newer_first in H12, H21.
    rewrite list_elem_of_In in H1, H2.
    apply (NoDup_map_inj createdAt _ x1 x2 distinct_times); [| |lia].
    + by eapply candidate_in_pair.
    + apply (candidate_in_pair before). fold cands.
      rewrite <- (take_drop k cands). apply in_or_app. by right.
  - apply candidates_sorted.
  - by apply StronglySorted_app_1_r in Hs.
  - apply NoDup_Permutation.
    + apply candidates_NoDup.
    + by apply NoDup_app in Hnd as (_ & _ & ?).
    + intros x. rewrite !list_elem_of_In, In_candidates. split.
      * intros [Hx Hq].
        assert (Hxc : In x cands).
        { apply In_candidates. split; [done|].
          pose proof (query_between _ _ _ _ Hq) as Hb.
          pose proof (query_before _ _ _ _ Hq) as Hlt.
          unfold query. rewrite Hb. simpl. destruct before as [c|]; [|done].
          apply In_take, In_candidates in Hy as [_ Hyq].
          apply query_before in Hyq. lia. }
        rewrite <- (take_drop k cands) in Hxc.
        apply in_app_or in Hxc as [Hxt | Hxd]; [|done].
        apply query_before in Hq.
        pose proof (last_is_oldest (take k cands) y x
                      (StronglySorted_app_1_l _ _ _ Hs) Hlast Hxt). lia.
      * intros Hx.
        assert (Hxc : In x cands).
        { rewrite <- (take_drop k cands). apply in_or_app. by right. }
        pose proof (proj1 (In_candidates _ _ _ _ _) Hxc) as [Hxin Hxq].
        split; [done|]. unfold query. rewrite (query_between _ _ _ _ Hxq). simpl.
        assert (Hle : createdAt x <= createdAt y).
        { apply (StronglySorted_app_1_elem_of newer_first _ _ y x Hs);
            by apply list_elem_of_In. }
        destruct (Z.eq_dec (createdAt x) (createdAt y)) as [Heq | Hne]; [|lia].
        exfalso. assert (x = y) as ->.
        { apply (candidates_same_time before); [done|by eapply In_take|done]. }
        apply NoDup_app in Hnd as (_ & Hdisj & _).
        apply (Hdisj y); by apply list_elem_of_In.
Qed.

(** When the messages of a conversation have distinct timestamps, paging
    backwards with a limit that is not negative, for as many calls as
    the candidates need, visits every candidate exactly once: the pages
    read from the last to the first make the whole history, oldest
    first. *)
Theorem paging_visits_every_message (lim : Js.value) (n : nat)
    (before : option Z) :
  (forall z, Js.parseInt lim = Some z -> 0 <= z) ->
  (length (candidates db A B before)
   <= n * Z.to_nat (effective_limit lim))%nat ->
  List.concat (reverse (List.map p_messages
                          (fetchPages db A B (replicate n lim) before)))
  = reverse (candidates db A B before).
Proof.
  intros Hlim. destruct (effective_limit_positive lim Hlim) as [HL _].
  set (k := Z.to_nat (effective_limit lim)).
  revert before. induction n as [|n IH]; intros before Hlen.
  - simpl in *. destruct (candidates db A B before); [done|simpl in Hlen; lia].
  - cbn [replicate fetchPages].
    rewrite (page_positive_limit db A B lim before _ eq_refl HL).
    cbn [nextCursor p_messages]. fold k.
    set (cands := candidates db A B before) in *.
    destruct (Z.ltb_spec (effective_limit lim) (Z.of_nat (length cands)))
      as [Hmore | Hall].
    + destruct (last (take k cands)) as [y|] eqn:Hlast.
      2: { apply last_None, (f_equal length) in Hlast.
           rewrite length_take in Hlast. simpl in Hlast. lia. }
      cbn [option_map List.map]. rewrite reverse_cons, concat_app.
      rewrite IH.
      * rewrite (candidates_after_cursor before k y Hlast). fold cands.
        simpl. rewrite app_nil_r, <- reverse_app. by rewrite take_drop.
      * rewrite (candidates_after_cursor before k y Hlast). fold cands.
        rewrite length_drop. lia.
    + cbn [List.map]. rewrite reverse_singleton. simpl. rewrite app_nil_r.
      rewrite take_ge by lia. done.
Qed.

(** With distinct timestamps in the conversation and a limit that is
    not negative, [hasMore] says exactly whether the store holds a
    message of the pair older than the oldest message of the page. *)
Theorem hasMore_iff_an_older_message_exists (lim : Js.value)
    (before : option Z) (y : Message) :
  (forall z, Js.parseInt lim = Some z -> 0 <= z) ->
  let page := getMessagesBetweenUsers db A B
                {| o_limit := lim; o_before := before |} in
  head (p_messages page) = Some y ->
  (hasMore page = true
   <-> exists m, In m (messages db) /\ between A B m = true
                 /\ createdAt m < createdAt y).
Proof.
  intros Hlim page. subst page.
  destruct (effective_limit_positive lim Hlim) as [HL _].
  rewrite (page_positive_limit db A B lim before _ eq_refl HL).
  cbn [p_messages hasMore]. rewrite head_reverse. intros Hlast.
  set (k := Z.to_nat (effective_limit lim)) in *.
  pose proof (candidates_after_cursor before k y Hlast) as Hnext.
  set (cands := candidates db A B before) in *.
  assert (Hk : (length (drop k cands) = length cands - k)%nat) by apply length_drop.
  split.
  - intros Hmore. apply Z.ltb_lt in Hmore.
    destruct (drop k cands) as [|m rest] eqn:Hd; [simpl in Hk; lia|].
    assert (Hm : In m (candidates db A B (Some (createdAt y))))
      by (rewrite Hnext; by left).
    apply In_candidates in Hm as [Hin Hq]. exists m. split; [done|].
    split; [by eapply query_between|by apply query_before in Hq].
  - intros (m & Hin & Hb & Hlt). apply Z.ltb_lt.
    assert (Hm : In m (drop k cands)).
    { rewrite <- Hnext. apply In_candidates. split; [done|].
      unfold query. rewrite Hb. simpl. lia. }
    destruct (drop k cands); [done|]. simpl in Hk. lia.
Qed.

End Completeness.

Lemma paging_visits_every_message_witness :
  NoDup (List.map createdAt
           (List.filter (MessageService.between "X" "Y") (messages Fixture.db0)))
  /\ List.concat (reverse (List.map MessageService.p_messages
                    (MessageService.fetchPages Fixture.db0 "X" "Y"
                       (replicate 2 (Js.Str "2")) None)))
     = [Fixture.m1; Fixture.m2; Fixture.m3].
Proof.
  assert (Hnd : NoDup (List.map createdAt
            (List.filter (MessageService.between "X" "Y") (messages Fixture.db0)))).
  { vm_compute. repeat constructor; rewrite ?list_elem_of_In; simpl; lia. }
  split; [exact Hnd|].
  rewrite (paging_visits_every_message Fixture.db0 "X" "Y" Hnd (Js.Str "2") 2 None).
  - vm_compute. reflexivity.
  - intros z Hz. vm_compute in Hz. inversion Hz. lia.
  - vm_compute. lia.
Defined.

Lemma hasMore_iff_an_older_message_exists_witness :
  NoDup (List.map createdAt
           (List.filter (MessageService.between "X" "Y") (messages Fixture.db0)))
  /\ MessageService.hasMore
       (MessageService.getMessagesBetweenUsers Fixture.db0 "X" "Y"
          {| MessageService.o_limit := Js.Str "2";
             MessageService.o_before := None |}) = true.
Proof.
  assert (Hnd : NoDup (List.map createdAt
            (List.filter (MessageService.between "X" "Y") (messages Fixture.db0)))).
  { vm_compute. repeat constructor; rewrite ?list_elem_of_In; simpl; lia. }
  split; [exact Hnd|].
  apply (hasMore_iff_an_older_message_exists Fixture.db0 "X" "Y" Hnd
           (Js.Str "2") None Fixture.m2).
  - intros z Hz. vm_compute in Hz. inversion Hz. lia.
  - vm_compute. reflexivity.
  - exists Fixture.m1. split; [simpl; tauto|]. split; [reflexivity|].
    vm_compute. reflexivity.
Defined.

(** ** The conversation route, for any limit *)

Section GetRoute.
Import MessageService.


End GetRoute.

(** ** Soft deletion and the partner list *)

Section DeletionAndPartners.
Import MessageService MessageMaintenance.

Lemma blank_involves (id U : string) (x : Message) :
  involves U (blank id x) = involves U x.
Proof. unfold blank. by destruct (String.eqb (msg_id x) id). Qed.

Lemma project_partner_blank (id U : string) (x : Message) :
  project_partner U (blank id x) = blank_grouped id (project_partner U x).
Proof.
  unfold blank_grouped, project_partner. cbn [lastMessage partnerId].
  unfold blank. by destruct (String.eqb (msg_id x) id).
Qed.

Lemma filter_map_keep {A} (f : A -> A) (p : A -> bool) (l : list A) :
  (forall x, p (f x) = p x) ->
  List.filter p (List.map f l) = List.map f (List.filter p l).
Proof.
  intros Hp. induction l as [|x l IH]; simpl; [done|].
  rewrite Hp. destruct (p x); simpl; by rewrite IH.
Qed.

Lemma group_first_blank (id : string) (l : list Grouped) :
  group_first (List.map (blank_grouped id) l)
  = List.map (blank_grouped id) (group_first l).
Proof.
  induction l as [|d l IH]; cbn [List.map group_first]; [done|].
  f_equal. rewrite IH. cbn [blank_grouped partnerId].
  by apply filter_map_keep.
Qed.

Lemma joined_blank (id : string) (us : gmap string User) (g : list Grouped) :
  List.map project_final
    (List.flat_map (lookup_unwind us) (List.map (blank_grouped id) g))
  = List.map (blank_partner id)
      (List.map project_final (List.flat_map (lookup_unwind us) g)).
Proof.
  induction g as [|d g IH]; cbn [List.map List.flat_map]; [done|].
  rewrite !List.map_app, IH. f_equal.
  unfold lookup_unwind. cbn [blank_grouped partnerId].
  by destruct (us !! partnerId d).
Qed.

(** With distinct ids in the collection, a soft delete keeps every
    list of chat partners: the same partners in the same order with the
    same profiles, the deleted message showing as its tombstone where
    it was the last message of a conversation. *)
Theorem deleteMessage_keeps_partner_list db (id user : string)
    (m' : Message) db' (U : string) :
  NoDup (List.map msg_id (messages db)) ->
  deleteMessage db id user = (inr m', db') ->
  getChatPartners db' U = List.map (blank_partner id) (getChatPartners db U).
Proof.
  intros Hnd Hdel.
  destruct (deleteMessage_messages db id user m' db' Hnd Hdel) as [Hmsgs Hu].
  unfold getChatPartners. rewrite Hmsgs, Hu.
  assert (H1 : List.map (project_partner U)
                 (sort_desc (List.filter (involves U)
                               (List.map (blank id) (messages db))))
               = List.map (blank_grouped id)
                   (List.map (project_partner U)
                      (sort_desc (List.filter (involves U) (messages db))))).
  { rewrite filter_map_blank by (intros x; apply blank_involves).
    unfold sort_desc. rewrite (merge_sort_map newer_first (blank id)).
    - rewrite !List.map_map. apply map_ext. apply project_partner_blank.
    - intros x y. unfold newer_first. by rewrite !blank_createdAt. }
  rewrite H1, group_first_blank, joined_blank.
  apply merge_sort_map. intros x y. unfold recent_first.
  cbn [blank_partner p_lastMessage]. by rewrite !blank_createdAt.
Qed.

Lemma deleteMessage_keeps_partner_list_witness :
  NoDup (List.map msg_id (messages Fixture.db0))
  /\ List.map (fun e => (p_id e, text (p_lastMessage e)))
       (getChatPartners (snd (deleteMessage Fixture.db0 "m3" "X")) "X")
     = [("Y", "This message was deleted"); ("W", "ping")].
Proof.
  assert (Hnd : NoDup (List.map msg_id (messages Fixture.db0))).
  { vm_compute. repeat constructor; rewrite ?list_elem_of_In; simpl; intuition congruence. }
  split; [exact Hnd|].
  rewrite (deleteMessage_keeps_partner_list Fixture.db0 "m3" "X"
             (tombstone Fixture.m3) (snd (deleteMessage Fixture.db0 "m3" "X"))
             "X" Hnd eq_refl).
  vm_compute. reflexivity.
Defined.

End DeletionAndPartners.
